(** * Server statistics poller: the poll-parse-evaluate cycle of [main.go]

    The development embeds [pollOnce], [splitCSV] and the loop of [main] of
    [main.go] together with the parts of Go's standard library they call
    ([strings.TrimSpace], [strings.Split], [strconv.ParseUint], the
    [uint64]/[int64]/[float64] operators), and proves the properties of the
    cycle.

    Conventions.
    - A Go [string] is a sequence of bytes: [String.string], whose characters
      are read as bytes through [byte_of].
    - A [uint64] is a [Z] in [0, 2^64); wrap-around is written out.
    - A [float64] is a [spec_float] at precision 53 and [emax] 1024, with the
      IEEE 754 operations of [SpecFloat] (round to nearest, ties to even).
    - Standard output is an append-only log of [fmt.Printf]/[fmt.Println]
      calls, threaded through the cycle as state. *)

From Stdlib Require Import ZArith Lia List Bool String Ascii.
From Stdlib Require Import Floats.SpecFloat.
From Stdlib Require Import Sorted.
Import ListNotations.

Local Open Scope string_scope.
Local Open Scope list_scope.
Local Open Scope Z_scope.

(** ** Bytes and unsigned 64-bit integers *)

Definition byte_of (c : ascii) : Z := Z.of_N (N_of_ascii c).

Definition maxUint64 : Z := 18446744073709551615.

Definition wrap64 (z : Z) : Z := z mod 2 ^ 64.

(** [int64(x)] for a [uint64] [x]: the two's complement reading. *)
Definition int64_of_uint64 (x : Z) : Z :=
  if x <? 2 ^ 63 then x else x - 2 ^ 64.

(** ** Slicing of strings

    [from i s] is [s[i:]] and [upto j s] is [s[:j]], for indices in range
    (Go panics on the others; the code below never reaches them). *)

Fixpoint from (i : nat) (s : string) : string :=
  match i, s with
  | O, _ => s
  | S i', String _ t => from i' t
  | S _, EmptyString => EmptyString
  end.

Fixpoint upto (j : nat) (s : string) : string :=
  match j, s with
  | O, _ => EmptyString
  | S j', String c t => String c (upto j' t)
  | S _, EmptyString => EmptyString
  end.

Definition slice (i j : Z) (s : string) : string :=
  upto (Z.to_nat (j - i)) (from (Z.to_nat i) s).

Definition len (s : string) : Z := Z.of_nat (String.length s).

(** ** Package [unicode/utf8] *)

Module utf8.

Definition RuneError : Z := 65533.
Definition RuneSelf : Z := 128.
Definition UTFMax : Z := 4.

(** The continuation byte range [locb, hicb]. *)
Definition locb : Z := 128.
Definition hicb : Z := 191.

(** What the table [first] says of a leading byte: the size of the encoding
    and the range accepted for the second byte; [None] for ASCII and for
    bytes that start no encoding. *)
Definition first (b : Z) : option (Z * (Z * Z)) :=
  if b <? 194 then None                       (* as, xx *)
  else if b <? 224 then Some (2, (locb, hicb))  (* s1 *)
  else if b =? 224 then Some (3, (160, hicb))   (* s2 *)
  else if b =? 237 then Some (3, (locb, 159))   (* s4 *)
  else if b <? 240 then Some (3, (locb, hicb))  (* s3 *)
  else if b =? 240 then Some (4, (144, hicb))   (* s5 *)
  else if b <? 244 then Some (4, (locb, hicb))  (* s6 *)
  else if b =? 244 then Some (4, (locb, 143))   (* s7 *)
  else None.                                  (* xx *)

Definition cont (b : Z) : bool := (locb <=? b) && (b <=? hicb).

(** [DecodeRuneInString]: the rune at the start of [s] and its width. *)
Definition DecodeRuneInString (s : string) : Z * Z :=
  match s with
  | EmptyString => (RuneError, 0)
  | String c0 t =>
    let s0 := byte_of c0 in
    match first s0 with
    | None => if s0 <? RuneSelf then (s0, 1) else (RuneError, 1)
    | Some (sz, (lo, hi)) =>
      if len s <? sz then (RuneError, 1) else
      match t with
      | EmptyString => (RuneError, 1)
      | String c1 t1 =>
        let s1 := byte_of c1 in
        if (s1 <? lo) || (hi <? s1) then (RuneError, 1) else
        if sz <=? 2 then
          (Z.lor (Z.shiftl (Z.land s0 31) 6) (Z.land s1 63), 2)
        else
        match t1 with
        | EmptyString => (RuneError, 1)
        | String c2 t2 =>
          let s2 := byte_of c2 in
          if negb (cont s2) then (RuneError, 1) else
          if sz <=? 3 then
            (Z.lor (Z.lor (Z.shiftl (Z.land s0 15) 12)
                          (Z.shiftl (Z.land s1 63) 6))
                   (Z.land s2 63), 3)
          else
          match t2 with
          | EmptyString => (RuneError, 1)
          | String c3 _ =>
            let s3 := byte_of c3 in
            if negb (cont s3) then (RuneError, 1) else
            (Z.lor (Z.lor (Z.lor (Z.shiftl (Z.land s0 7) 18)
                                 (Z.shiftl (Z.land s1 63) 12))
                          (Z.shiftl (Z.land s2 63) 6))
                   (Z.land s3 63), 4)
          end
        end
      end
    end
  end.

(** [RuneStart]: the byte is not a continuation byte. *)
Definition RuneStart (b : Z) : bool := negb (Z.land b 192 =? 128).

(** The backward scan of [DecodeLastRuneInString]: from [start], while
    [start >= lim], stop at the first byte that could start a rune. *)
Fixpoint scanBack (s : string) (n : nat) (start lim : Z) : Z :=
  match n with
  | O => start
  | S n' =>
    if start <? lim then start
    else
      match String.get (Z.to_nat start) s with
      | Some c => if RuneStart (byte_of c) then start
                  else scanBack s n' (start - 1) lim
      | None => start
      end
  end.

(** [DecodeLastRuneInString]: the rune at the end of [s] and its width. *)
Definition DecodeLastRuneInString (s : string) : Z * Z :=
  let e := len s in
  if e =? 0 then (RuneError, 0) else
  let start := e - 1 in
  match String.get (Z.to_nat start) s with
  | None => (RuneError, 0)
  | Some c =>
    let r := byte_of c in
    if r <? RuneSelf then (r, 1) else
    let lim := Z.max 0 (e - UTFMax) in
    let start := scanBack s 4 (start - 1) lim in
    let start := if start <? 0 then 0 else start in
    let '(r, size) :=
      DecodeRuneInString (slice start e s) in
    if negb (start + size =? e) then (RuneError, 1) else (r, size)
  end.

End utf8.

(** ** Package [unicode] *)

Module unicode.

Definition MaxLatin1 : Z := 255.

(** [IsSpace]: the Latin-1 switch, then the [White_Space] range table. *)
Definition IsSpace (r : Z) : bool :=
  if r <=? MaxLatin1 then
    (r =? 9) || (r =? 10) || (r =? 11) || (r =? 12) || (r =? 13)
    || (r =? 32) || (r =? 133) || (r =? 160)
  else
    (r =? 5760) || ((8192 <=? r) && (r <=? 8202))
    || (r =? 8232) || (r =? 8233) || (r =? 8239) || (r =? 8287)
    || (r =? 12288).

End unicode.

(** ** Package [strings] *)

Module strings.

(** The table [asciiSpace]. *)
Definition asciiSpace (c : Z) : bool :=
  (c =? 9) || (c =? 10) || (c =? 11) || (c =? 12) || (c =? 13) || (c =? 32).

(** [indexFunc]: [for i, r := range s], the index of the first rune with
    [f r = truth], or -1.  [skip] counts the bytes of the current rune
    still to be passed. *)
Fixpoint indexFunc_range (s : string) (skip : nat) (i : Z)
    (f : Z -> bool) (truth : bool) : Z :=
  match s with
  | EmptyString => -1
  | String _ t =>
    match skip with
    | S k => indexFunc_range t k (i + 1) f truth
    | O =>
      let '(r, size) := utf8.DecodeRuneInString s in
      if Bool.eqb (f r) truth then i
      else indexFunc_range t (Z.to_nat size - 1) (i + 1) f truth
    end
  end.

Definition indexFunc (s : string) (f : Z -> bool) (truth : bool) : Z :=
  indexFunc_range s 0 0 f truth.

(** [lastIndexFunc]: [for i := len(s); i > 0;] decoding the last rune of
    [s[0:i]] and stepping back by its width. *)
Fixpoint lastIndexFunc_loop (s : string) (i skip : nat)
    (f : Z -> bool) (truth : bool) : Z :=
  match i with
  | O => -1
  | S i' =>
    match skip with
    | S k => lastIndexFunc_loop s i' k f truth
    | O =>
      let '(r, size) := utf8.DecodeLastRuneInString (upto i s) in
      if Bool.eqb (f r) truth then Z.of_nat i - size
      else lastIndexFunc_loop s i' (Z.to_nat size - 1) f truth
    end
  end.

Definition lastIndexFunc (s : string) (f : Z -> bool) (truth : bool) : Z :=
  lastIndexFunc_loop s (String.length s) 0 f truth.

Definition TrimLeftFunc (s : string) (f : Z -> bool) : string :=
  let i := indexFunc s f false in
  if i =? -1 then EmptyString else from (Z.to_nat i) s.

Definition TrimRightFunc (s : string) (f : Z -> bool) : string :=
  let i := lastIndexFunc s f false in
  let i :=
    if (i >=? 0) &&
       match String.get (Z.to_nat i) s with
       | Some c => byte_of c >=? utf8.RuneSelf
       | None => false
       end
    then i + snd (utf8.DecodeRuneInString (from (Z.to_nat i) s))
    else i + 1 in
  upto (Z.to_nat i) s.

Definition TrimFunc (s : string) (f : Z -> bool) : string :=
  TrimRightFunc (TrimLeftFunc s f) f.

(** The first loop of [TrimSpace], over [s[start:]]: the value of [start]
    when the loop is left, and whether it was left at a non-ASCII byte. *)
Fixpoint trimSpace_start (rest : string) (start : Z) : Z * bool :=
  match rest with
  | EmptyString => (start, false)
  | String ch t =>
    let c := byte_of ch in
    if c >=? utf8.RuneSelf then (start, true)
    else if asciiSpace c then trimSpace_start t (start + 1)
    else (start, false)
  end.

(** The second loop, over the bytes [s[stop-1]], [s[stop-2]], ... down to
    [s[start]]. *)
Fixpoint trimSpace_stop (back : list ascii) (stop : Z) : Z * bool :=
  match back with
  | [] => (stop, false)
  | ch :: t =>
    let c := byte_of ch in
    if c >=? utf8.RuneSelf then (stop, true)
    else if asciiSpace c then trimSpace_stop t (stop - 1)
    else (stop, false)
  end.

Definition TrimSpace (s : string) : string :=
  let '(start, nonASCII) := trimSpace_start s 0 in
  if nonASCII then TrimFunc (from (Z.to_nat start) s) unicode.IsSpace else
  let '(stop, nonASCII) :=
    trimSpace_stop (rev (list_ascii_of_string (from (Z.to_nat start) s)))
                   (len s) in
  if nonASCII then TrimRightFunc (slice start stop s) unicode.IsSpace
  else slice start stop s.

(** [IndexByte]: the index of the first [c] in [s], or -1. *)
Fixpoint IndexByte (s : string) (c : ascii) : Z :=
  match s with
  | EmptyString => -1
  | String ch t =>
    if Ascii.eqb ch c then 0
    else let m := IndexByte t c in if m <? 0 then m else m + 1
  end.

(** [Count] for a one-byte separator. *)
Fixpoint Count (s : string) (c : ascii) : nat :=
  match s with
  | EmptyString => O
  | String ch t => if Ascii.eqb ch c then S (Count t c) else Count t c
  end.

(** The loop of [genSplit] ([sepSave = 0]), run at most [n] times. *)
Fixpoint genSplit (n : nat) (s : string) (sep : ascii) : list string :=
  match n with
  | O => [s]
  | S n' =>
    let m := IndexByte s sep in
    if m <? 0 then [s]
    else upto (Z.to_nat m) s :: genSplit n' (from (Z.to_nat (m + 1)) s) sep
  end.

(** [Split(s, sep)] for a separator of one byte, which is how [main.go]
    calls it: [genSplit(s, sep, 0, -1)], where [n] becomes
    [Count(s, sep) + 1] and the loop runs while [i < n - 1]. *)
Definition Split (s : string) (sep : ascii) : list string :=
  genSplit (Count s sep) s sep.

End strings.

(** ** Package [strconv] *)

Module strconv.

(** The [Err] field of a [*NumError]. *)
Inductive NumError := ErrSyntax | ErrRange.

(** [lower(c)]: [c | ('x' - 'X')]. *)
Definition lower (c : Z) : Z := Z.lor c 32.

(** The switch that reads one byte as a digit (base not 0, so an
    underscore falls to [default]). *)
Definition digit (c : Z) : option Z :=
  if (48 <=? c) && (c <=? 57) then Some (c - 48)
  else if (97 <=? lower c) && (lower c <=? 122) then Some (lower c - 97 + 10)
  else None.

Definition base : Z := 10.
Definition bitSize : Z := 64.

(** Cutoff is the smallest number such that [cutoff*base > maxUint64]. *)
Definition cutoff : Z := maxUint64 / 10 + 1.
Definition maxVal : Z := wrap64 (Z.shiftl 1 bitSize - 1).

(** The loop [for _, c := range []byte(s)] with the accumulator [n]. *)
Fixpoint ParseUint_loop (s : string) (n : Z) : Z * option NumError :=
  match s with
  | EmptyString => (n, None)
  | String ch t =>
    match digit (byte_of ch) with
    | None => (0, Some ErrSyntax)
    | Some d =>
      if d >=? base then (0, Some ErrSyntax) else
      if n >=? cutoff then (maxVal, Some ErrRange) else
      let n := wrap64 (n * base) in
      let n1 := wrap64 (n + d) in
      if (n1 <? n) || (n1 >? maxVal) then (maxVal, Some ErrRange)
      else ParseUint_loop t n1
    end
  end.

(** [ParseUint(s, 10, 64)]: the value and the error ([None] is [nil]). *)
Definition ParseUint (s : string) : Z * option NumError :=
  match s with
  | EmptyString => (0, Some ErrSyntax)
  | _ => ParseUint_loop s 0
  end.

End strconv.

(** ** [float64] *)

Definition float64 := spec_float.

(** [float64(x)] for an integer [x], rounded to nearest, ties to even; the
    constants [100.0], [8.0], [1_000_000.0] and the thresholds are exact. *)
Definition float64_of_Z (x : Z) : float64 := binary_normalize 53 1024 x 0 false.

Definition fmul (x y : float64) : float64 := SFmul 53 1024 x y.
Definition fdiv (x y : float64) : float64 := SFdiv 53 1024 x y.

(** [x > y] on [float64]. *)
Definition fgt (x y : float64) : bool := SFltb y x.

(** * [main.go] *)

(** ** Constants *)

Definition loadAverageThreshold : Z := 30.
Definition memoryUsageThreshold : Z := 80.
Definition freeDiscSpaceThreshold : Z := 90.
Definition networkBandwidthThreshold : Z := 90.

(** ** Errors, output and the cycle's monad *)

(** The errors [pollOnce] returns, one constructor per [return] site. *)
Inductive error :=
| ErrDo                          (* client.Do failed *)
| ErrBadStatus (StatusCode : Z)  (* "bad status: %s" *)
| ErrReadAll                     (* io.ReadAll failed *)
| ErrFieldNumber (n : Z)         (* "unexpected field number: %d" *)
| ErrTooManyErrors               (* "too may errors" *)
| ErrMemTotal0                   (* "memTotal=0" *)
| ErrDiskTotal0                  (* "diskTotal=0" *)
| ErrNetCap0.                    (* "netCap=0" *)

(** One call that writes a line to standard output, with its argument. *)
Inductive printed :=
| LoadAverageTooHigh (loadAvg : Z)       (* "Load Average is too high: %d\n" *)
| MemoryUsageTooHigh (memPct : float64)  (* "Memory usage too high: %f%%\n" *)
| FreeDiskSpaceTooLow (freeMB : Z)
    (* "Free disk space is too low: %d Mb left\n" *)
| NetworkBandwidthHigh (freeMbit : float64)
    (* "Network bandwidth usage high: %f Mbit/s available\n" *)
| UnableToFetch.                  (* "Unable to fetch server statistic." *)

Definition stdout := list printed.

(** A computation that may print and may [return] an error early. *)
Definition M (A : Type) : Type := stdout -> stdout * (A + error).

Definition ret {A} (a : A) : M A := fun out => (out, inl a).

Definition bind {A B} (m : M A) (k : A -> M B) : M B :=
  fun out =>
    match m out with
    | (out', inl a) => k a out'
    | (out', inr e) => (out', inr e)
    end.

Definition fail {A} (e : error) : M A := fun out => (out, inr e).

Definition Printf (p : printed) : M unit := fun out => (out ++ [p], inl tt).

Definition when (b : bool) (m : M unit) : M unit := if b then m else ret tt.

Notation "x <- m ;; k" := (bind m (fun x => k))
  (at level 61, m at next level, right associativity).
Notation "m ;; k" := (bind m (fun _ => k))
  (at level 61, right associativity).

(** ** The response of the server *)

(** What [client.Do] and [io.ReadAll] hand to [pollOnce]. *)
Inductive fetched :=
| DoFailed
| Response (StatusCode : Z) (Body : option string).  (* [None]: read error *)

Definition StatusOK : Z := 200.

(** Lines 55-73: the body of the response, or the transport error. *)
Definition fetch (r : fetched) : M string :=
  match r with
  | DoFailed => fail ErrDo
  | Response code body =>
    if negb (code =? StatusOK) then fail (ErrBadStatus code) else
    match body with
    | None => fail ErrReadAll
    | Some bodyBytes => ret bodyBytes
    end
  end.

(** ** [splitCSV] *)

Definition splitCSV (s : string) : list string :=
  let raw := strings.Split s "," in
  fold_left
    (fun out p =>
       let p := strings.TrimSpace p in
       if negb (String.eqb p "") then out ++ [p] else out ++ [p])
    raw [].

(** ** The numeric fields *)

(** The local variables of [pollOnce] after line 113. *)
Record snapshot := {
  loadAvg : Z;
  memTotal : Z;
  memUsed : Z;
  diskTotal : Z;
  diskUsed : Z;
  netCap : Z;
  netUsed : Z;
  errNum : Z
}.

(** [parts[i]]. *)
Definition part (parts : list string) (i : nat) : string :=
  nth i parts EmptyString.

(** [if err != nil { errNum++ }]. *)
Definition count_err (err : option strconv.NumError) (errNum : Z) : Z :=
  match err with
  | Some _ => errNum + 1
  | None => errNum
  end.

(** Lines 82-113. *)
Definition parseFields (parts : list string) : snapshot :=
  let errNum := 0 in
  let '(loadAvg, err) := strconv.ParseUint (part parts 0) in
  let errNum := count_err err errNum in
  let '(memTotal, err) := strconv.ParseUint (part parts 1) in
  let errNum := count_err err errNum in
  let '(memUsed, err) := strconv.ParseUint (part parts 2) in
  let errNum := count_err err errNum in
  let '(diskTotal, err) := strconv.ParseUint (part parts 3) in
  let errNum := count_err err errNum in
  let '(diskUsed, err) := strconv.ParseUint (part parts 4) in
  let errNum := count_err err errNum in
  let '(netCap, err) := strconv.ParseUint (part parts 5) in
  let errNum := count_err err errNum in
  let '(netUsed, err) := strconv.ParseUint (part parts 6) in
  let errNum := count_err err errNum in
  {| loadAvg := loadAvg; memTotal := memTotal; memUsed := memUsed;
     diskTotal := diskTotal; diskUsed := diskUsed;
     netCap := netCap; netUsed := netUsed; errNum := errNum |}.

(** ** The four checks *)

(** [(float64(used) / float64(total)) * 100.0]. *)
Definition pct (used total : Z) : float64 :=
  fmul (fdiv (float64_of_Z used) (float64_of_Z total)) (float64_of_Z 100).

Definition memPct (s : snapshot) : float64 := pct (memUsed s) (memTotal s).
Definition diskPct (s : snapshot) : float64 := pct (diskUsed s) (diskTotal s).
Definition netPct (s : snapshot) : float64 := pct (netUsed s) (netCap s).

(** Lines 139-140: [int64(diskTotal - diskUsed) / (1024 * 1024)]; Go's
    integer division truncates toward zero. *)
Definition freeMB (s : snapshot) : Z :=
  let freeBytes := int64_of_uint64 (wrap64 (diskTotal s - diskUsed s)) in
  Z.quot freeBytes (1024 * 1024).

(** Lines 150-151: [(float64(netCap - netUsed) * 8.0) / 1_000_000.0]. *)
Definition freeMbit (s : snapshot) : float64 :=
  let freeBytesPerSec := float64_of_Z (wrap64 (netCap s - netUsed s)) in
  fdiv (fmul freeBytesPerSec (float64_of_Z 8)) (float64_of_Z 1000000).

(** Lines 119-155. *)
Definition checks (s : snapshot) : M unit :=
  (* 1) Load Average *)
  when (loadAvg s >? loadAverageThreshold)
       (Printf (LoadAverageTooHigh (loadAvg s))) ;;
  (* 2) Memory usage *)
  if memTotal s =? 0 then fail ErrMemTotal0 else
  when (fgt (memPct s) (float64_of_Z memoryUsageThreshold))
       (Printf (MemoryUsageTooHigh (memPct s))) ;;
  (* 3) Disk usage *)
  if diskTotal s =? 0 then fail ErrDiskTotal0 else
  when (fgt (diskPct s) (float64_of_Z freeDiscSpaceThreshold))
       (Printf (FreeDiskSpaceTooLow (freeMB s))) ;;
  (* 4) Network usage *)
  if netCap s =? 0 then fail ErrNetCap0 else
  when (fgt (netPct s) (float64_of_Z networkBandwidthThreshold))
       (Printf (NetworkBandwidthHigh (freeMbit s))) ;;
  ret tt.

(** ** [pollOnce] *)

(** Lines 75-155, from the body of the response on. *)
Definition pollBody (bodyBytes : string) : M unit :=
  let line := strings.TrimSpace bodyBytes in
  let parts := splitCSV line in
  if negb (Z.of_nat (List.length parts) =? 7)
  then fail (ErrFieldNumber (Z.of_nat (List.length parts))) else
  let s := parseFields parts in
  if errNum s >? 3 then fail ErrTooManyErrors else
  checks s.

Definition pollOnce (r : fetched) : M unit :=
  bodyBytes <- fetch r ;;
  pollBody bodyBytes.

(** The [case <-ticker.C] branch of [main]. *)
Definition tick (r : fetched) : stdout -> stdout :=
  fun out =>
    match pollOnce r out with
    | (out', inr _) => out' ++ [UnableToFetch]
    | (out', inl _) => out'
    end.

(** ** The loop of [main] *)

(** What one pass of the [select] of [main] receives: the cancellation, or a
    tick, with the answer the server gives to that cycle's request. *)
Inductive selected :=
| CtxDone
| TickerC (r : fetched).

(** Lines 41-51: the loop, over the channel events in the order the
    [select] takes them; it returns at the first cancellation. *)
Fixpoint main (events : list selected) (out : stdout) : stdout :=
  match events with
  | [] => out
  | CtxDone :: _ => out
  | TickerC r :: rest => main rest (tick r out)
  end.

(** * Vocabulary of the properties *)

(** A response with status 200 and the given body. *)
Definition ok (body : string) : fetched := Response StatusOK (Some body).

(** ** Numerals *)

(** The bytes '0' to '9'. *)
Definition isDigit (c : ascii) : bool :=
  (48 <=? byte_of c) && (byte_of c <=? 57).

Fixpoint allDigits (s : string) : bool :=
  match s with
  | EmptyString => true
  | String c t => isDigit c && allDigits t
  end.

(** Decimal numerals: the non-empty strings of digits. *)
Definition numeral (s : string) : bool :=
  match s with
  | EmptyString => false
  | _ => allDigits s
  end.

(** The integer a numeral denotes, continuing from the value [n] of the
    digits already read. *)
Fixpoint valueFrom (n : Z) (s : string) : Z :=
  match s with
  | EmptyString => n
  | String c t => valueFrom (n * 10 + (byte_of c - 48)) t
  end.

Definition value (s : string) : Z := valueFrom 0 s.

(** ** Lines, fields and snapshots *)

(** The fields of the line in the body of a response, and the values read
    from them. *)
Definition parts_of (body : string) : list string :=
  splitCSV (strings.TrimSpace body).

Definition snapshot_of (body : string) : snapshot := parseFields (parts_of body).

Definition wellFormed (body : string) : Prop :=
  List.length (parts_of body) = 7%nat.

(** A usable snapshot: seven fields, at most three of them unparsable. *)
Definition usable (body : string) : Prop :=
  wellFormed body /\ errNum (snapshot_of body) <= 3.

(** A field fails numeric interpretation. *)
Definition failed (p : string) : bool :=
  match snd (strconv.ParseUint p) with
  | Some _ => true
  | None => false
  end.

(** The value read from field [i], in the order of the line. *)
Definition field (i : nat) (s : snapshot) : Z :=
  match i with
  | 0 => loadAvg s
  | 1 => memTotal s
  | 2 => memUsed s
  | 3 => diskTotal s
  | 4 => diskUsed s
  | 5 => netCap s
  | _ => netUsed s
  end%nat.

(** The line each check prints, if any. *)
Definition loadLine (s : snapshot) : list printed :=
  if loadAvg s >? loadAverageThreshold
  then [LoadAverageTooHigh (loadAvg s)] else [].

Definition memLine (s : snapshot) : list printed :=
  if fgt (memPct s) (float64_of_Z memoryUsageThreshold)
  then [MemoryUsageTooHigh (memPct s)] else [].

Definition diskLine (s : snapshot) : list printed :=
  if fgt (diskPct s) (float64_of_Z freeDiscSpaceThreshold)
  then [FreeDiskSpaceTooLow (freeMB s)] else [].

Definition netLine (s : snapshot) : list printed :=
  if fgt (netPct s) (float64_of_Z networkBandwidthThreshold)
  then [NetworkBandwidthHigh (freeMbit s)] else [].

(** ** Equality at a threshold *)

(** [x == y] on [float64]. *)
Definition feq (x y : float64) : bool := SFeqb x y.

(** ** The shape of a field *)

(** The longest prefix of digits of a field, and what follows it. *)
Fixpoint leadingDigits (s : string) : string :=
  match s with
  | EmptyString => EmptyString
  | String c t => if isDigit c then String c (leadingDigits t) else EmptyString
  end.

Fixpoint afterDigits (s : string) : string :=
  match s with
  | EmptyString => EmptyString
  | String c t => if isDigit c then afterDigits t else s
  end.

(** ** The order of the lines *)


(** ** Lines of numerals *)

(** Strings of the white space of the table [asciiSpace]. *)
Fixpoint allSpace (s : string) : bool :=
  match s with
  | EmptyString => true
  | String c t => strings.asciiSpace (byte_of c) && allSpace t
  end.

(** What follows the first field of a line: for each further field, white
    space, a comma, white space and the field. *)
Fixpoint moreFields (rest : list (string * string * string)) : string :=
  match rest with
  | [] => EmptyString
  | (a, b, f) :: rest' =>
    (a ++ String "," (b ++ f ++ moreFields rest'))%string
  end.

(** A line of fields separated by commas, with white space around the line,
    the fields and the commas. *)
Definition lineOf (lead f0 : string) (rest : list (string * string * string))
    (trail : string) : string :=
  (lead ++ f0 ++ moreFields rest ++ trail)%string.

(** A field that [ParseUint] accepts. *)
Definition accepted (f : string) : Prop :=
  numeral f = true /\ value f <= maxUint64.

(** A byte of ASCII that is not white space. *)
Definition solid (c : ascii) : bool :=
  (byte_of c <? utf8.RuneSelf) && negb (strings.asciiSpace (byte_of c)).

(** A string that starts and ends with such a byte. *)
Definition tight (s : string) : Prop :=
  (exists c t, s = String c t /\ solid c = true)
  /\ (exists c t, rev (list_ascii_of_string s) = c :: t /\ solid c = true).

(** One further field of a line: the white space before the comma, the
    white space after it, and the numeral. *)
Definition goodRest (x : string * string * string) : Prop :=
  let '(a, b, f) := x in
  allSpace a = true /\ allSpace b = true /\ accepted f.

Definition fieldOf (x : string * string * string) : string :=
  let '(_, _, f) := x in f.

(** ** The bytes of a rune and the end of a string *)

(** The first [n] bytes exist and are not ASCII. *)
Fixpoint highPrefix (n : nat) (s : string) : bool :=
  match n with
  | O => true
  | S n' =>
    match s with
    | String c t => (128 <=? byte_of c) && highPrefix n' t
    | EmptyString => false
    end
  end.

(** The bytes of a string, the last one first. *)
Definition back (p : string) : list ascii := rev (list_ascii_of_string p).

(** The first [n] bytes of a list exist and satisfy [P]. *)
Fixpoint prefixAll (P : ascii -> bool) (n : nat) (l : list ascii) : bool :=
  match n with
  | O => true
  | S n' =>
    match l with
    | c :: t => P c && prefixAll P n' t
    | [] => false
    end
  end.

(** A byte that is not ASCII; a byte of the table [asciiSpace]. *)
Definition high (c : ascii) : bool := 128 <=? byte_of c.

Definition space (c : ascii) : bool := strings.asciiSpace (byte_of c).

(** * Lemmas *)

(** ** Splitting *)

Section Splitting.

Variable sep : ascii.

Lemma IndexByte_neg s : strings.IndexByte s sep < 0 <-> strings.Count s sep = O.
Proof.
  induction s as [|ch t IH]; simpl.
  - split; [reflexivity | lia].
  - destruct (Ascii.eqb ch sep).
    + split; [lia | discriminate].
    + destruct (strings.IndexByte t sep <? 0) eqn:E.
      * apply Z.ltb_lt in E. split; [intros _; now apply IH | intros _; exact E].
      * apply Z.ltb_ge in E. split; [lia | intros H; apply IH in H; lia].
Qed.

Lemma IndexByte_lower s : -1 <= strings.IndexByte s sep.
Proof.
  induction s as [|ch t IH]; simpl; [lia|].
  destruct (Ascii.eqb ch sep); [lia|].
  destruct (strings.IndexByte t sep <? 0); lia.
Qed.

Lemma Count_after_IndexByte s :
  0 <= strings.IndexByte s sep ->
  strings.Count (from (Z.to_nat (strings.IndexByte s sep + 1)) s) sep
  = pred (strings.Count s sep).
Proof.
  induction s as [|ch t IH]; simpl; [lia|].
  destruct (Ascii.eqb ch sep) eqn:E; [reflexivity|].
  destruct (strings.IndexByte t sep <? 0) eqn:L.
  - apply Z.ltb_lt in L. lia.
  - apply Z.ltb_ge in L. intros _.
    replace (Z.to_nat (strings.IndexByte t sep + 1 + 1))
      with (S (Z.to_nat (strings.IndexByte t sep + 1))) by lia.
    simpl. now apply IH.
Qed.

Lemma genSplit_length n s :
  strings.Count s sep = n ->
  List.length (strings.genSplit n s sep) = S n.
Proof.
  revert s; induction n as [|n IH]; intros s Hc; simpl; [reflexivity|].
  destruct (strings.IndexByte s sep <? 0) eqn:L.
  - apply Z.ltb_lt, IndexByte_neg in L. congruence.
  - apply Z.ltb_ge in L. simpl. f_equal. apply IH.
    rewrite Count_after_IndexByte by assumption. now rewrite Hc.
Qed.

Lemma Split_length s :
  List.length (strings.Split s sep) = S (strings.Count s sep).
Proof. unfold strings.Split. now apply genSplit_length. Qed.

End Splitting.

Lemma splitCSV_fold raw acc :
  fold_left
    (fun out p =>
       let p := strings.TrimSpace p in
       if negb (String.eqb p "") then out ++ [p] else out ++ [p])
    raw acc
  = acc ++ map strings.TrimSpace raw.
Proof.
  revert acc; induction raw as [|p raw IH]; intros acc; simpl.
  - now rewrite app_nil_r.
  - destruct (negb (String.eqb (strings.TrimSpace p) ""));
      rewrite IH, <- app_assoc; reflexivity.
Qed.

(** [splitCSV] trims every segment and keeps them all, the empty ones too. *)
Lemma splitCSV_map s :
  splitCSV s = map strings.TrimSpace (strings.Split s ",").
Proof. unfold splitCSV. now rewrite splitCSV_fold. Qed.

Lemma splitCSV_length s :
  List.length (splitCSV s) = S (strings.Count s ",").
Proof. now rewrite splitCSV_map, length_map, Split_length. Qed.

(** ** [strconv.ParseUint] *)

Lemma wrap64_small z : 0 <= z <= maxUint64 -> wrap64 z = z.
Proof. unfold wrap64, maxUint64. intros H. apply Z.mod_small. lia. Qed.

Lemma maxVal_eq : strconv.maxVal = maxUint64.
Proof. reflexivity. Qed.

Lemma cutoff_eq : strconv.cutoff = 1844674407370955162.
Proof. reflexivity. Qed.

Lemma digit_of_isDigit c :
  isDigit c = true -> strconv.digit (byte_of c) = Some (byte_of c - 48).
Proof. unfold isDigit, strconv.digit. now intros ->. Qed.

Lemma isDigit_bounds c : isDigit c = true -> 0 <= byte_of c - 48 <= 9.
Proof. unfold isDigit. intros H. apply andb_true_iff in H. lia. Qed.

Lemma valueFrom_ge s : forall n, allDigits s = true -> 0 <= n -> n <= valueFrom n s.
Proof.
  induction s as [|c t IH]; intros n Hd Hn; simpl in *; [lia|].
  apply andb_true_iff in Hd as [Hc Ht].
  pose proof (isDigit_bounds c Hc).
  specialize (IH (n * 10 + (byte_of c - 48)) Ht). lia.
Qed.

(** On digits the loop computes the denoted integer when it fits 64 bits,
    and reports a range error with the largest [uint64] when it does not. *)
Lemma ParseUint_loop_digits s : forall n,
  allDigits s = true -> 0 <= n <= maxUint64 ->
  strconv.ParseUint_loop s n =
    if valueFrom n s <=? maxUint64 then (valueFrom n s, None)
    else (maxUint64, Some strconv.ErrRange).
Proof.
  induction s as [|c t IH]; intros n Hd Hn.
  - simpl. destruct (n <=? maxUint64) eqn:E; [reflexivity|].
    apply Z.leb_gt in E. lia.
  - simpl in Hd. apply andb_true_iff in Hd as [Hc Ht].
    pose proof (isDigit_bounds c Hc) as Hb.
    cbn [strconv.ParseUint_loop valueFrom].
    rewrite (digit_of_isDigit c Hc), maxVal_eq, cutoff_eq.
    set (d := byte_of c - 48) in *.
    unfold strconv.base.
    destruct (d >=? 10) eqn:E1; [lia|].
    pose proof (valueFrom_ge t (n * 10 + d) Ht) as Hge.
    unfold maxUint64 in *.
    destruct (n >=? 1844674407370955162) eqn:E2.
    + destruct (valueFrom (n * 10 + d) t <=? 18446744073709551615) eqn:E3;
        [lia | reflexivity].
    + assert (Hn10 : wrap64 (n * 10) = n * 10)
        by (apply wrap64_small; unfold maxUint64; lia).
      rewrite Hn10.
      destruct (n * 10 + d <=? 18446744073709551615) eqn:E4.
      * assert (Hn1 : wrap64 (n * 10 + d) = n * 10 + d)
          by (apply wrap64_small; unfold maxUint64; lia).
        rewrite Hn1.
        destruct ((n * 10 + d <? n * 10) || (n * 10 + d >? 18446744073709551615))
          eqn:E5; [lia|].
        apply IH; [assumption | lia].
      * assert (Hn1 : wrap64 (n * 10 + d) = n * 10 + d - 18446744073709551616).
        { unfold wrap64. symmetry.
          apply (Z.mod_unique _ _ 1); change (2 ^ 64) with 18446744073709551616; lia. }
        rewrite Hn1.
        destruct ((n * 10 + d - 18446744073709551616 <? n * 10)
                  || (n * 10 + d - 18446744073709551616 >? 18446744073709551615))
          eqn:E5; [|lia].
        destruct (valueFrom (n * 10 + d) t <=? 18446744073709551615) eqn:E3;
          [lia | reflexivity].
Qed.

(** What the loop returns with each kind of error, on any bytes. *)
Lemma ParseUint_loop_cases s : forall n, 0 <= n <= maxUint64 ->
  match strconv.ParseUint_loop s n with
  | (v, None) => 0 <= v <= maxUint64
  | (v, Some strconv.ErrSyntax) => v = 0
  | (v, Some strconv.ErrRange) => v = maxUint64
  end.
Proof.
  induction s as [|c t IH]; intros n Hn; simpl; [assumption|].
  destruct (strconv.digit (byte_of c)) as [d|]; [|reflexivity].
  destruct (d >=? strconv.base); [reflexivity|].
  destruct (n >=? strconv.cutoff); [reflexivity|].
  destruct ((wrap64 (wrap64 (n * strconv.base) + d) <? wrap64 (n * strconv.base))
            || (wrap64 (wrap64 (n * strconv.base) + d) >? strconv.maxVal)) eqn:E;
    [reflexivity|].
  apply IH. apply orb_false_iff in E as [_ E]. rewrite maxVal_eq in E.
  unfold wrap64 in *.
  pose proof (Z.mod_pos_bound ((n * strconv.base) mod 2 ^ 64 + d) (2 ^ 64)).
  lia.
Qed.

Lemma ParseUint_cases s :
  match strconv.ParseUint s with
  | (v, None) => 0 <= v <= maxUint64
  | (v, Some strconv.ErrSyntax) => v = 0
  | (v, Some strconv.ErrRange) => v = maxUint64
  end.
Proof.
  destruct s as [|c t]; [reflexivity|].
  apply (ParseUint_loop_cases (String c t) 0). unfold maxUint64; lia.
Qed.

Lemma ParseUint_range s : 0 <= fst (strconv.ParseUint s) <= maxUint64.
Proof.
  pose proof (ParseUint_cases s) as H.
  destruct (strconv.ParseUint s) as [v [[]|]]; simpl; unfold maxUint64 in *; lia.
Qed.

Lemma ParseUint_numeral s :
  numeral s = true ->
  strconv.ParseUint s =
    if value s <=? maxUint64 then (value s, None)
    else (maxUint64, Some strconv.ErrRange).
Proof.
  destruct s as [|c t]; [discriminate|]. intros H.
  apply (ParseUint_loop_digits (String c t) 0 H). unfold maxUint64; lia.
Qed.

(** ** The cycle *)

Ltac run_checks :=
  unfold checks, bind, when, Printf, ret, fail,
         loadLine, memLine, diskLine, netLine.

(** The four checks, one guard after the other. *)
Lemma checks_eq s out :
  checks s out =
    if memTotal s =? 0 then (out ++ loadLine s, inr ErrMemTotal0)
    else if diskTotal s =? 0
      then (out ++ loadLine s ++ memLine s, inr ErrDiskTotal0)
    else if netCap s =? 0
      then (out ++ loadLine s ++ memLine s ++ diskLine s, inr ErrNetCap0)
    else (out ++ loadLine s ++ memLine s ++ diskLine s ++ netLine s, inl tt).
Proof.
  run_checks.
  destruct (loadAvg s >? loadAverageThreshold);
  destruct (memTotal s =? 0); try (now rewrite ?app_nil_r);
  destruct (fgt (memPct s) (float64_of_Z memoryUsageThreshold));
  destruct (diskTotal s =? 0); try (now rewrite ?app_nil_r, <- ?app_assoc);
  destruct (fgt (diskPct s) (float64_of_Z freeDiscSpaceThreshold));
  destruct (netCap s =? 0); try (now rewrite ?app_nil_r, <- ?app_assoc);
  destruct (fgt (netPct s) (float64_of_Z networkBandwidthThreshold));
  now rewrite ?app_nil_r, <- ?app_assoc.
Qed.

(** The checks append to the output and never read it. *)
Lemma checks_frame s out :
  checks s out = (out ++ fst (checks s []), snd (checks s [])).
Proof.
  rewrite !checks_eq.
  destruct (memTotal s =? 0); [reflexivity|].
  destruct (diskTotal s =? 0); [reflexivity|].
  destruct (netCap s =? 0); reflexivity.
Qed.

Lemma pollOnce_ok body out : pollOnce (ok body) out = pollBody body out.
Proof. reflexivity. Qed.

Lemma pollBody_eq body out :
  pollBody body out =
    if negb (Z.of_nat (List.length (parts_of body)) =? 7)
    then (out, inr (ErrFieldNumber (Z.of_nat (List.length (parts_of body)))))
    else if errNum (snapshot_of body) >? 3 then (out, inr ErrTooManyErrors)
    else checks (snapshot_of body) out.
Proof.
  unfold pollBody, snapshot_of, parts_of, fail.
  destruct (negb _); [reflexivity|].
  destruct (_ >? 3); reflexivity.
Qed.

Lemma pollOnce_usable body out :
  usable body -> pollOnce (ok body) out = checks (snapshot_of body) out.
Proof.
  intros [Hw Hu]. rewrite pollOnce_ok, pollBody_eq. unfold wellFormed in Hw.
  rewrite Hw. simpl.
  destruct (errNum (snapshot_of body) >? 3) eqn:E; [lia | reflexivity].
Qed.

(** The values of the snapshot are the values [ParseUint] returns, error or
    not, and [errNum] counts the errors. *)
Lemma parseFields_field parts i :
  (i < 7)%nat ->
  field i (parseFields parts) = fst (strconv.ParseUint (part parts i)).
Proof.
  intros Hi. unfold parseFields.
  destruct (strconv.ParseUint (part parts 0)) as [v0 e0] eqn:E0.
  destruct (strconv.ParseUint (part parts 1)) as [v1 e1] eqn:E1.
  destruct (strconv.ParseUint (part parts 2)) as [v2 e2] eqn:E2.
  destruct (strconv.ParseUint (part parts 3)) as [v3 e3] eqn:E3.
  destruct (strconv.ParseUint (part parts 4)) as [v4 e4] eqn:E4.
  destruct (strconv.ParseUint (part parts 5)) as [v5 e5] eqn:E5.
  destruct (strconv.ParseUint (part parts 6)) as [v6 e6] eqn:E6.
  do 7 (destruct i as [|i];
        [simpl; rewrite ?E0, ?E1, ?E2, ?E3, ?E4, ?E5, ?E6; reflexivity|]).
  lia.
Qed.

Lemma parseFields_errNum parts :
  List.length parts = 7%nat ->
  errNum (parseFields parts) = Z.of_nat (List.length (filter failed parts)).
Proof.
  intros Hl.
  do 7 (destruct parts as [|? parts]; [discriminate|]).
  destruct parts; [|discriminate].
  unfold parseFields, part, failed. cbn [nth filter].
  repeat match goal with
  | |- context [strconv.ParseUint ?p] =>
      destruct (strconv.ParseUint p) as [? [?|]]
  end; reflexivity.
Qed.

(** Every value of a snapshot is a [uint64]. *)
Lemma snapshot_range parts i :
  (i < 7)%nat -> 0 <= field i (parseFields parts) <= maxUint64.
Proof. intros Hi. rewrite parseFields_field by assumption. apply ParseUint_range. Qed.

(** ** Comparison with a threshold *)

Lemma SFcompare_Eq_sym x y :
  SFcompare x y = Some Eq -> SFcompare y x = Some Eq.
Proof.
  destruct x as [sx|sx| |sx mx ex], y as [sy|sy| |sy my ey]; simpl;
    try discriminate; try reflexivity;
    try (destruct sx, sy; (discriminate || reflexivity));
    try (destruct sx; discriminate); try (destruct sy; discriminate).
  destruct sx, sy; try discriminate.
  - destruct (ex ?= ey) eqn:E; try discriminate.
    apply Z.compare_eq in E. subst. rewrite Z.compare_refl.
    intros H. injection H as H. f_equal.
    destruct (Pos.compare_cont Eq mx my) eqn:C; try discriminate.
    apply Pos.compare_eq in C. subst. now rewrite Pos.compare_cont_refl.
  - destruct (ex ?= ey) eqn:E; try discriminate.
    apply Z.compare_eq in E. subst. rewrite Z.compare_refl.
    intros H. injection H as H. f_equal.
    destruct (Pos.compare_cont Eq mx my) eqn:C; try discriminate.
    apply Pos.compare_eq in C. subst. now rewrite Pos.compare_cont_refl.
Qed.

(** A value equal to the threshold is not greater than it. *)
Lemma feq_not_fgt x y : feq x y = true -> fgt x y = false.
Proof.
  unfold feq, fgt, SFeqb, SFltb. intros H.
  destruct (SFcompare x y) as [[]|] eqn:E; try discriminate.
  now rewrite (SFcompare_Eq_sym _ _ E).
Qed.

(** ** Rounding to 53 bits *)

Lemma digits2_pos_bounds p :
  2 ^ (Zpos (digits2_pos p) - 1) <= Zpos p < 2 ^ Zpos (digits2_pos p).
Proof.
  induction p as [p IH|p IH|]; simpl digits2_pos.
  - rewrite Pos2Z.inj_succ.
    replace (Z.succ (Zpos (digits2_pos p)) - 1) with (Z.succ (Zpos (digits2_pos p) - 1)) by lia.
    rewrite !Z.pow_succ_r by lia. lia.
  - rewrite Pos2Z.inj_succ.
    replace (Z.succ (Zpos (digits2_pos p)) - 1) with (Z.succ (Zpos (digits2_pos p) - 1)) by lia.
    rewrite !Z.pow_succ_r by lia. lia.
  - simpl. lia.
Qed.

Lemma Zdigits2_unique m d :
  0 < d -> 2 ^ (d - 1) <= m < 2 ^ d -> Zdigits2 m = d.
Proof.
  intros Hd Hm.
  assert (0 < m) by (pose proof (Z.pow_pos_nonneg 2 (d - 1)); lia).
  destruct m as [|p|p]; try lia. simpl.
  pose proof (digits2_pos_bounds p) as Hp.
  set (k := Zpos (digits2_pos p)) in *.
  assert (0 < k) by (subst k; lia).
  destruct (Z.lt_trichotomy k d) as [L|[E|G]]; [|exact E|].
  - assert (2 ^ k <= 2 ^ (d - 1)) by (apply Z.pow_le_mono_r; lia). lia.
  - assert (2 ^ d <= 2 ^ (k - 1)) by (apply Z.pow_le_mono_r; lia). lia.
Qed.

Lemma shr_1_m mrs : 0 <= shr_m mrs -> shr_m (shr_1 mrs) = shr_m mrs / 2.
Proof.
  destruct mrs as [m r s]. unfold shr_m at 1. intros Hm.
  destruct m as [|[p|p|]|p]; unfold shr_1, shr_m; try lia; try reflexivity.
  - apply (Z.div_unique _ _ _ 1); lia.
  - apply (Z.div_unique _ _ _ 0); lia.
Qed.

Lemma pow2_xO p : 2 ^ Zpos p~0 = 2 ^ Zpos p * 2 ^ Zpos p.
Proof. rewrite Pos2Z.inj_xO, <- Z.pow_add_r by lia. f_equal. lia. Qed.

Lemma pow2_xI p : 2 ^ Zpos p~1 = 2 * (2 ^ Zpos p * 2 ^ Zpos p).
Proof.
  rewrite Pos2Z.inj_xI, <- Z.pow_add_r by lia.
  replace (2 * Zpos p + 1) with (Z.succ (Zpos p + Zpos p)) by lia.
  now rewrite Z.pow_succ_r by lia.
Qed.

Lemma iter_shr_1_m p : forall mrs,
  0 <= shr_m mrs ->
  shr_m (iter_pos shr_1 p mrs) = shr_m mrs / 2 ^ Zpos p.
Proof.
  assert (Hnn : forall mrs, 0 <= shr_m mrs -> 0 <= shr_m (shr_1 mrs)).
  { intros mrs H. rewrite shr_1_m by assumption. apply Z.div_pos; lia. }
  induction p as [p IH|p IH|]; intros mrs Hm; simpl iter_pos.
  - assert (H1 : 0 <= shr_m (iter_pos shr_1 p (shr_1 mrs))).
    { rewrite IH by auto. apply Z.div_pos; [auto | lia]. }
    rewrite IH by assumption. rewrite IH by auto. rewrite shr_1_m by assumption.
    rewrite !Z.div_div by lia. now rewrite pow2_xI.
  - assert (H1 : 0 <= shr_m (iter_pos shr_1 p mrs)).
    { rewrite IH by auto. apply Z.div_pos; [auto | lia]. }
    rewrite IH by assumption. rewrite IH by auto.
    rewrite !Z.div_div by lia. now rewrite pow2_xO.
  - rewrite shr_1_m by assumption. reflexivity.
Qed.


Lemma shr_record_of_loc_m m l : shr_m (shr_record_of_loc m l) = m.
Proof. destruct l as [|[]]; reflexivity. Qed.

Lemma round_nearest_even_cases m l :
  round_nearest_even m l = m \/ round_nearest_even m l = m + 1.
Proof.
  destruct l as [|[]]; simpl; auto. destruct (Z.even m); auto.
Qed.

Lemma shr_spec mrs e n :
  0 <= shr_m mrs -> 0 <= n ->
  shr_m (fst (shr mrs e n)) = shr_m mrs / 2 ^ n /\ snd (shr mrs e n) = e + n.
Proof.
  intros Hm Hn. destruct n as [|p|p]; try lia; simpl.
  - rewrite Z.div_1_r. lia.
  - split; [now apply iter_shr_1_m | reflexivity].
Qed.

Lemma fexp_normal e : -1074 <= e - 53 -> fexp 53 1024 e = e - 53.
Proof. unfold fexp, emin. lia. Qed.

Lemma shr_fexp_spec m e l d :
  0 < m -> Zdigits2 m = d -> 53 <= d -> -1074 <= d + e - 53 ->
  shr_m (fst (shr_fexp 53 1024 m e l)) = m / 2 ^ (d - 53)
  /\ snd (shr_fexp 53 1024 m e l) = e + (d - 53).
Proof.
  intros Hm Hd Hk He. unfold shr_fexp.
  rewrite Hd, fexp_normal by lia.
  replace (d + e - 53 - e) with (d - 53) by lia.
  pose proof (shr_spec (shr_record_of_loc m l) e (d - 53)) as H.
  rewrite shr_record_of_loc_m in H. apply H; lia.
Qed.

Lemma binary_round_aux_spec mx ex lx d :
  0 < mx -> Zdigits2 mx = d -> 53 <= d ->
  -1074 <= d + ex - 53 -> d + ex - 53 + 1 <= 971 ->
  exists m e,
    binary_round_aux 53 1024 false mx ex lx = S754_finite false m e
    /\ 2 ^ 52 <= mx / 2 ^ (d - 53) < 2 ^ 53
    /\ 2 ^ 52 <= Zpos m < 2 ^ 53
    /\ ((e = ex + (d - 53)
         /\ (Zpos m = mx / 2 ^ (d - 53) \/ Zpos m = mx / 2 ^ (d - 53) + 1))
        \/ (e = ex + (d - 53) + 1 /\ Zpos m = 2 ^ 52
            /\ mx / 2 ^ (d - 53) + 1 = 2 ^ 53)).
Proof.
  intros Hm Hd Hk Hlo Hhi.
  assert (Hm1 : 2 ^ 52 <= mx / 2 ^ (d - 53) < 2 ^ 53).
  { destruct mx as [|p|p]; try lia. simpl in Hd.
    pose proof (digits2_pos_bounds p) as Hp. rewrite Hd in Hp.
    assert (Hpow : 2 ^ (d - 1) = 2 ^ 52 * 2 ^ (d - 53))
      by (rewrite <- Z.pow_add_r by lia; f_equal; lia).
    assert (Hpow' : 2 ^ d = 2 ^ (d - 53) * 2 ^ 53)
      by (rewrite <- Z.pow_add_r by lia; f_equal; lia).
    assert (0 < 2 ^ (d - 53)) by (apply Z.pow_pos_nonneg; lia).
    split.
    - apply Z.div_le_lower_bound; lia.
    - apply Z.div_lt_upper_bound; lia. }
  unfold binary_round_aux.
  pose proof (shr_fexp_spec mx ex lx d Hm Hd Hk Hlo) as [H1 H2].
  destruct (shr_fexp 53 1024 mx ex lx) as [mrs' e']. simpl in H1, H2.
  set (m1 := mx / 2 ^ (d - 53)) in *.
  set (m2 := round_nearest_even (shr_m mrs') (loc_of_shr_record mrs')).
  assert (Hm2 : m2 = m1 \/ m2 = m1 + 1)
    by (subst m2; rewrite <- H1; apply round_nearest_even_cases).
  change (2 ^ 52) with 4503599627370496 in *.
  change (2 ^ 53) with 9007199254740992 in *.
  destruct (Z.lt_ge_cases m2 9007199254740992) as [Hlt|Hge].
  - assert (Hd2 : Zdigits2 m2 = 53)
      by (apply Zdigits2_unique; [lia|];
          change (2 ^ (53 - 1)) with 4503599627370496;
          change (2 ^ 53) with 9007199254740992; lia).
    pose proof (shr_fexp_spec m2 e' loc_Exact 53 ltac:(lia) Hd2 ltac:(lia)
                  ltac:(lia)) as [H3 H4].
    destruct (shr_fexp 53 1024 m2 e' loc_Exact) as [mrs'' e''].
    simpl in H3, H4. change (2 ^ (53 - 53)) with 1 in H3.
    rewrite Z.div_1_r in H3. rewrite H3.
    destruct m2 as [|p|p]; try lia.
    assert (Hle : (e'' <=? 1024 - 53) = true) by (apply Z.leb_le; lia).
    rewrite Hle. exists p, e''.
    split; [reflexivity|]. split; [lia|]. split; [lia|].
    left. split; [lia | assumption].
  - assert (Hm2' : m2 = 9007199254740992) by lia.
    assert (Hd2 : Zdigits2 m2 = 54) by (rewrite Hm2'; reflexivity).
    pose proof (shr_fexp_spec m2 e' loc_Exact 54 ltac:(lia) Hd2 ltac:(lia)
                  ltac:(lia)) as [H3 H4].
    destruct (shr_fexp 53 1024 m2 e' loc_Exact) as [mrs'' e''].
    simpl in H3, H4. rewrite Hm2' in H3.
    change (9007199254740992 / 2 ^ (54 - 53)) with 4503599627370496 in H3.
    rewrite H3.
    assert (Hle : (e'' <=? 1024 - 53) = true) by (apply Z.leb_le; lia).
    rewrite Hle. exists 4503599627370496%positive, e''.
    split; [reflexivity|]. split; [lia|]. split; [lia|].
    right. lia.
Qed.

(** A number of 53 bits is its own rounding. *)
Lemma binary_round_aux_exact m e :
  2 ^ 52 <= Zpos m < 2 ^ 53 -> -1074 <= e <= 971 ->
  binary_round_aux 53 1024 false (Zpos m) e loc_Exact = S754_finite false m e.
Proof.
  intros Hm He.
  assert (Hd : Zdigits2 (Zpos m) = 53)
    by (apply Zdigits2_unique; [lia | exact Hm]).
  assert (Hs : shr_fexp 53 1024 (Zpos m) e loc_Exact
               = ({| shr_m := Zpos m; shr_r := false; shr_s := false |}, e)).
  { unfold shr_fexp. rewrite Hd, fexp_normal by lia.
    replace (53 + e - 53 - e) with 0 by lia. reflexivity. }
  unfold binary_round_aux. rewrite Hs. cbn [shr_m loc_of_shr_record round_nearest_even].
  rewrite Hs. cbn [shr_m].
  assert (Hle : (e <=? 1024 - 53) = true) by (apply Z.leb_le; lia).
  now rewrite Hle.
Qed.

Lemma iter_xO_pow p q : Zpos (Pos.iter xO p q) = Zpos p * 2 ^ Zpos q.
Proof.
  induction q as [|q IH] using Pos.peano_ind.
  - simpl. lia.
  - rewrite Pos.iter_succ, Pos2Z.inj_xO, IH, Pos2Z.inj_succ, Z.pow_succ_r by lia.
    lia.
Qed.

(** [float64(x)] for [0 < x < 2^64]: a normal number whose exponent is set
    by the number of bits of [x]; exact up to 53 bits, and the leading 53
    bits or their successor beyond. *)
Lemma float64_of_Z_spec x d :
  0 < x -> Zdigits2 x = d -> d <= 64 ->
  exists m e,
    float64_of_Z x = S754_finite false m e
    /\ 2 ^ 52 <= Zpos m < 2 ^ 53
    /\ ((e = d - 53
         /\ (d <= 53 -> Zpos m = x * 2 ^ (53 - d))
         /\ (53 <= d ->
             Zpos m = x / 2 ^ (d - 53) \/ Zpos m = x / 2 ^ (d - 53) + 1))
        \/ (e = d - 52 /\ Zpos m = 2 ^ 52 /\ 53 < d
            /\ x / 2 ^ (d - 53) + 1 = 2 ^ 53)).
Proof.
  intros Hx Hd Hd64.
  destruct x as [|p|p]; try lia. simpl in Hd.
  assert (Hd1 : 1 <= d) by lia.
  unfold float64_of_Z, binary_normalize, binary_round.
  rewrite Hd, Z.add_0_r, fexp_normal by lia.
  unfold shl_align.
  destruct (Z.lt_ge_cases d 53) as [Hlt|Hge].
  - destruct (d - 53 - 0) as [|q|q] eqn:Eq; try lia.
    pose proof (iter_xO_pow p q) as Hmz.
    set (mz := Pos.iter xO p q) in *.
    assert (Hq : Zpos q = 53 - d) by lia.
    pose proof (digits2_pos_bounds p) as Hp. rewrite Hd in Hp.
    assert (Hmzb : 2 ^ 52 <= Zpos mz < 2 ^ 53).
    { rewrite Hmz, Hq.
      assert (E1 : 2 ^ 52 = 2 ^ (d - 1) * 2 ^ (53 - d))
        by (rewrite <- Z.pow_add_r by lia; f_equal; lia).
      assert (E2 : 2 ^ 53 = 2 ^ d * 2 ^ (53 - d))
        by (rewrite <- Z.pow_add_r by lia; f_equal; lia).
      assert (0 < 2 ^ (53 - d)) by (apply Z.pow_pos_nonneg; lia).
      rewrite E1, E2. split; [apply Z.mul_le_mono_nonneg_r; lia|].
      apply Z.mul_lt_mono_pos_r; lia. }
    rewrite (binary_round_aux_exact mz (d - 53) Hmzb) by lia.
    exists mz, (d - 53). split; [reflexivity|]. split; [exact Hmzb|].
    left. split; [reflexivity|]. split; [intros _; now rewrite Hmz, Hq | lia].
  - assert (Hsh : (let '(mz, ez) :=
                     match d - 53 - 0 with
                     | Z.neg d0 => (Pos.iter xO p d0, d - 53)
                     | _ => (p, 0)
                     end in
                   binary_round_aux 53 1024 false (Z.pos mz) ez loc_Exact)
                  = binary_round_aux 53 1024 false (Zpos p) 0 loc_Exact)
      by (destruct (d - 53 - 0) eqn:E; try lia; reflexivity).
    rewrite Hsh.
    destruct (Z.eq_dec d 53) as [E53|N53].
    + pose proof (digits2_pos_bounds p) as Hp. rewrite Hd, E53 in Hp.
      change (2 ^ (53 - 1)) with (2 ^ 52) in Hp.
      rewrite (binary_round_aux_exact p 0 Hp) by lia.
      exists p, 0. split; [reflexivity|]. split; [exact Hp|].
      left. split; [lia|]. rewrite E53.
      change (2 ^ (53 - 53)) with 1. rewrite Z.mul_1_r, Z.div_1_r.
      split; auto.
    + destruct (binary_round_aux_spec (Zpos p) 0 loc_Exact d
                  ltac:(lia) Hd ltac:(lia) ltac:(lia) ltac:(lia))
        as (m & e & Hr & _ & Hm & Hcase).
      exists m, e. split; [exact Hr|]. split; [exact Hm|].
      destruct Hcase as [[He Hv]|[He [Hm' Hc]]]; [left | right].
      * split; [lia|]. split; [lia | auto].
      * repeat split; try lia; assumption.
Qed.

Lemma Zdigits2_53 m : 2 ^ 52 <= Zpos m < 2 ^ 53 -> Zdigits2 (Zpos m) = 53.
Proof. intros H. apply Zdigits2_unique; [lia | exact H]. Qed.

(** The quotient of two normal numbers: the 53 or 54 bits of the integer
    quotient [mu * 2^53 / mt], rounded to 53. *)
Lemma fdiv_spec mu eu mt et :
  2 ^ 52 <= Zpos mu < 2 ^ 53 -> 2 ^ 52 <= Zpos mt < 2 ^ 53 ->
  -1000 <= eu - et <= 900 ->
  let q := Zpos mu * 2 ^ 53 / Zpos mt in
  exists m e,
    fdiv (S754_finite false mu eu) (S754_finite false mt et)
      = S754_finite false m e
    /\ 2 ^ 52 <= Zpos m < 2 ^ 53
    /\ (Zpos mu < Zpos mt ->
        (e = eu - et - 53 /\ q <= Zpos m <= q + 1)
        \/ (e = eu - et - 52 /\ Zpos m = 2 ^ 52 /\ q + 1 = 2 ^ 53))
    /\ (Zpos mt <= Zpos mu ->
        (e = eu - et - 52 /\ q / 2 <= Zpos m <= q / 2 + 1)
        \/ (e = eu - et - 51 /\ Zpos m = 2 ^ 52 /\ q / 2 + 1 = 2 ^ 53)).
Proof.
  intros Hu Ht Hd q.
  pose proof (Zdigits2_53 mu Hu) as Hdu.
  pose proof (Zdigits2_53 mt Ht) as Hdt.
  unfold fdiv, SFdiv, SFdiv_core_binary. cbv zeta.
  rewrite Hdu, Hdt.
  replace (53 + eu - (53 + et)) with (eu - et) by lia.
  rewrite fexp_normal by lia.
  rewrite Z.min_l by lia.
  replace (eu - et - (eu - et - 53)) with 53 by lia.
  rewrite Z.shiftl_mul_pow2 by lia.
  assert (Hq : fst (Z.div_eucl (Zpos mu * 2 ^ 53) (Zpos mt)) = q) by reflexivity.
  destruct (Z.div_eucl (Zpos mu * 2 ^ 53) (Zpos mt)) as [q' r]. simpl in Hq.
  subst q'. simpl xorb.
  change (2 ^ 52) with 4503599627370496 in *.
  change (2 ^ 53) with 9007199254740992 in *.
  assert (Hqlo : 4503599627370496 <= q)
    by (apply Z.div_le_lower_bound; lia).
  assert (Hqhi : q < 18014398509481984)
    by (apply Z.div_lt_upper_bound; lia).
  destruct (Z.lt_ge_cases (Zpos mu) (Zpos mt)) as [Hlt|Hge].
  - assert (Hq53 : q < 9007199254740992)
      by (apply Z.div_lt_upper_bound; lia).
    assert (Hdq : Zdigits2 q = 53)
      by (apply Zdigits2_unique; [lia|];
          change (2 ^ (53 - 1)) with 4503599627370496;
          change (2 ^ 53) with 9007199254740992; lia).
    destruct (binary_round_aux_spec q (eu - et - 53) (new_location (Zpos mt) r)
                53 ltac:(lia) Hdq ltac:(lia) ltac:(lia) ltac:(lia))
      as (m & e & Hr & _ & Hm & Hcase).
    change (2 ^ (53 - 53)) with 1 in Hcase. rewrite Z.div_1_r in Hcase.
    change (2 ^ 52) with 4503599627370496 in *.
    change (2 ^ 53) with 9007199254740992 in *.
    exists m, e. split; [exact Hr|]. split; [exact Hm|].
    split; [intros _ | lia].
    destruct Hcase as [[He Hv]|[He [Hm' Hc]]]; [left | right]; lia.
  - assert (Hq54 : 9007199254740992 <= q)
      by (apply Z.div_le_lower_bound; lia).
    assert (Hdq : Zdigits2 q = 54)
      by (apply Zdigits2_unique; [lia|];
          change (2 ^ (54 - 1)) with 9007199254740992;
          change (2 ^ 54) with 18014398509481984; lia).
    destruct (binary_round_aux_spec q (eu - et - 53) (new_location (Zpos mt) r)
                54 ltac:(lia) Hdq ltac:(lia) ltac:(lia) ltac:(lia))
      as (m & e & Hr & _ & Hm & Hcase).
    change (2 ^ (54 - 53)) with 2 in Hcase.
    change (2 ^ 52) with 4503599627370496 in *.
    change (2 ^ 53) with 9007199254740992 in *.
    exists m, e. split; [exact Hr|]. split; [exact Hm|].
    split; [lia | intros _].
    destruct Hcase as [[He Hv]|[He [Hm' Hc]]]; [left | right]; lia.
Qed.

Lemma float64_100 : float64_of_Z 100 = S754_finite false 7036874417766400 (-46).
Proof. reflexivity. Qed.

Lemma float64_90 :
  float64_of_Z freeDiscSpaceThreshold = S754_finite false 6333186975989760 (-46).
Proof. reflexivity. Qed.

(** The product of a normal number and [100.0]: the 105 or 106 bits of the
    integer product, rounded to 53. *)
Lemma fmul_100_spec mq eq :
  2 ^ 52 <= Zpos mq < 2 ^ 53 -> -1000 <= eq <= 800 ->
  let P := Zpos mq * 7036874417766400 in
  exists m e,
    fmul (S754_finite false mq eq) (float64_of_Z 100) = S754_finite false m e
    /\ 2 ^ 52 <= Zpos m < 2 ^ 53
    /\ (P < 2 ^ 105 ->
        (e = eq + 6 /\ P / 2 ^ 52 <= Zpos m <= P / 2 ^ 52 + 1)
        \/ (e = eq + 7 /\ Zpos m = 2 ^ 52))
    /\ (2 ^ 105 <= P ->
        (e = eq + 7 /\ P / 2 ^ 53 <= Zpos m <= P / 2 ^ 53 + 1)
        \/ (e = eq + 8 /\ Zpos m = 2 ^ 52 /\ P / 2 ^ 53 + 1 = 2 ^ 53)).
Proof.
  intros Hq He P. rewrite float64_100. unfold fmul, SFmul. simpl xorb.
  rewrite Pos2Z.inj_mul. fold P.
  change (2 ^ 52) with 4503599627370496 in *.
  change (2 ^ 53) with 9007199254740992 in *.
  change (2 ^ 105) with 40564819207303340847894502572032 in *.
  destruct (Z.lt_ge_cases P 40564819207303340847894502572032) as [Hlt|Hge].
  - assert (Hd : Zdigits2 P = 105)
      by (apply Zdigits2_unique; [lia|];
          change (2 ^ (105 - 1)) with 20282409603651670423947251286016;
          change (2 ^ 105) with 40564819207303340847894502572032;
          subst P; lia).
    destruct (binary_round_aux_spec P (eq + -46) loc_Exact 105
                ltac:(subst P; lia) Hd ltac:(lia) ltac:(lia) ltac:(lia))
      as (m & e & Hr & _ & Hm & Hcase).
    change (105 - 53) with 52 in Hcase.
    change (2 ^ 52) with 4503599627370496 in *.
    change (2 ^ 53) with 9007199254740992 in *.
    exists m, e. split; [exact Hr|]. split; [exact Hm|].
    split; [intros _ | lia].
    destruct Hcase as [[He' Hv]|[He' [Hm' Hc]]]; [left | right]; lia.
  - assert (Hd : Zdigits2 P = 106)
      by (apply Zdigits2_unique; [lia|];
          change (2 ^ (106 - 1)) with 40564819207303340847894502572032;
          change (2 ^ 106) with 81129638414606681695789005144064;
          subst P; lia).
    destruct (binary_round_aux_spec P (eq + -46) loc_Exact 106
                ltac:(subst P; lia) Hd ltac:(lia) ltac:(lia) ltac:(lia))
      as (m & e & Hr & _ & Hm & Hcase).
    change (106 - 53) with 53 in Hcase.
    change (2 ^ 52) with 4503599627370496 in *.
    change (2 ^ 53) with 9007199254740992 in *.
    exists m, e. split; [exact Hr|]. split; [exact Hm|].
    split; [lia | intros _].
    destruct Hcase as [[He' Hv]|[He' [Hm' Hc]]]; [left | right]; lia.
Qed.

(** A quotient of at most 3/4 gives a percentage that is not above 90. *)
Lemma pct_of_small_quotient mq eq :
  2 ^ 52 <= Zpos mq < 2 ^ 53 -> -1000 <= eq ->
  eq <= -54 \/ (eq = -53 /\ Zpos mq <= 3 * 2 ^ 51) ->
  fgt (fmul (S754_finite false mq eq) (float64_of_Z 100))
      (float64_of_Z freeDiscSpaceThreshold) = false.
Proof.
  intros Hq Hlo Hb.
  destruct (fmul_100_spec mq eq Hq ltac:(lia)) as (m & e & -> & Hm & H1 & H2).
  rewrite float64_90.
  set (P := Zpos mq * 7036874417766400) in *.
  change (2 ^ 52) with 4503599627370496 in *.
  change (2 ^ 53) with 9007199254740992 in *.
  change (2 ^ 51) with 2251799813685248 in *.
  change (2 ^ 105) with 40564819207303340847894502572032 in *.
  assert (Hres : e < -46 \/ (e = -46 /\ Zpos m <= 6333186975989760)).
  { destruct (Z.lt_ge_cases P 40564819207303340847894502572032) as [Hlt|Hge].
    - destruct (H1 Hlt) as [[He _]|[He Hm']]; lia.
    - destruct (H2 Hge) as [[He Hv]|[He [Hm' Hc]]].
      + destruct Hb as [Hb|[Hb Hmq]]; [lia|].
        right. split; [lia|].
        assert (P / 9007199254740992 <= 5277655813324800)
          by (apply Z.div_le_upper_bound; subst P; lia).
        lia.
      + destruct Hb as [Hb|[Hb Hmq]]; [lia|].
        assert (P / 9007199254740992 <= 5277655813324800)
          by (apply Z.div_le_upper_bound; subst P; lia).
        lia. }
  unfold fgt, SFltb, SFcompare.
  destruct Hres as [He|[He Hv]].
  - assert (Hc : (-46 ?= e) = Gt) by (apply Z.compare_gt_iff; lia).
    now rewrite Hc.
  - subst e. rewrite Z.compare_refl.
    change (Pos.compare_cont Eq 6333186975989760 m)
      with (Pos.compare 6333186975989760 m).
    rewrite Pos2Z.inj_compare.
    destruct (Z.compare_spec 6333186975989760 (Zpos m)); try reflexivity. lia.
Qed.

Lemma Zdigits2_le x j : 0 < x < 2 ^ j -> 0 <= j -> 1 <= Zdigits2 x <= j.
Proof.
  intros Hx Hj. destruct x as [|p|p]; try lia. simpl.
  pose proof (digits2_pos_bounds p) as Hp.
  split; [lia|].
  destruct (Z.le_gt_cases (Zpos (digits2_pos p)) j) as [L|G]; [exact L|].
  assert (2 ^ j <= 2 ^ (Zpos (digits2_pos p) - 1))
    by (apply Z.pow_le_mono_r; lia).
  lia.
Qed.

(** With at least 2^63 bytes free out of less than 2^64, the quotient
    [float64(used) / float64(total)] is at most 3/4. *)
Lemma quotient_when_half_free used total :
  0 < used -> used + 2 ^ 63 <= total -> total <= maxUint64 ->
  exists mq eq,
    fdiv (float64_of_Z used) (float64_of_Z total) = S754_finite false mq eq
    /\ 2 ^ 52 <= Zpos mq < 2 ^ 53 /\ -1000 <= eq
    /\ (eq <= -54 \/ (eq = -53 /\ Zpos mq <= 3 * 2 ^ 51)).
Proof.
  intros Hu Hfree Hmax. unfold maxUint64 in Hmax.
  change (2 ^ 63) with 9223372036854775808 in Hfree.
  assert (Hdt : Zdigits2 total = 64)
    by (apply Zdigits2_unique; [lia|];
        change (2 ^ (64 - 1)) with 9223372036854775808;
        change (2 ^ 64) with 18446744073709551616; lia).
  destruct (float64_of_Z_spec total 64 ltac:(lia) Hdt ltac:(lia))
    as (mt & et & -> & Hmt & HT).
  pose proof (Zdigits2_le used 63
                ltac:(change (2 ^ 63) with 9223372036854775808; lia)
                ltac:(lia)) as Hdu.
  (* from 2^62 on, [used] leaves a total of at least 3 * 2^62 *)
  assert (Hkt : Zdigits2 used = 63 -> 3 * 2 ^ 51 <= total / 2 ^ (64 - 53)).
  { intros Hd.
    assert (4611686018427387904 <= used).
    { destruct used as [|p|p]; try lia. simpl in Hd.
      pose proof (digits2_pos_bounds p) as Hp. rewrite Hd in Hp.
      change (2 ^ (63 - 1)) with 4611686018427387904 in Hp. lia. }
    apply Z.div_le_lower_bound; [reflexivity|].
    change (2 ^ (64 - 53) * (3 * 2 ^ 51)) with 13835058055282163712. lia. }
  set (du := Zdigits2 used) in *.
  destruct (float64_of_Z_spec used du ltac:(lia) eq_refl ltac:(lia))
    as (mu & eu & -> & Hmu & HU).
  set (xu := used * 2 ^ (53 - du)) in *.
  set (ku := used / 2 ^ (du - 53)) in *.
  set (xt := total * 2 ^ (53 - 64)) in *.
  set (kt := total / 2 ^ (64 - 53)) in *.
  clearbody xu xt ku kt du. clear Hu Hfree Hmax Hdt.
  destruct (fdiv_spec mu eu mt et Hmu Hmt
              ltac:(destruct HU as [[? _]|[? _]], HT as [[? _]|[? _]]; lia))
    as (mq & eq & -> & Hmq & Hlo & Hhi).
  exists mq, eq. split; [reflexivity|]. split; [exact Hmq|].
  set (q := Zpos mu * 2 ^ 53 / Zpos mt) in *.
  change (2 ^ 52) with 4503599627370496 in *.
  change (2 ^ 53) with 9007199254740992 in *.
  change (2 ^ 51) with 2251799813685248 in *.
  (* the quotient of a mantissa by one that is not below it *)
  assert (Hq1 : Zpos mu <= Zpos mt ->
                q <= 9007199254740992 /\ q / 2 <= 4503599627370496).
  { clear - Hmt Hmu. intros H.
    assert (q <= 9007199254740992) by (apply Z.div_le_upper_bound; lia).
    split; [assumption | apply Z.div_le_upper_bound; lia]. }
  (* the quotient by a mantissa of at least 3/2 *)
  assert (Hq2 : 6755399441055744 <= Zpos mt ->
                q <= 12009599006321323 /\ q / 2 <= 6004799503160661).
  { clear - Hmt Hmu. intros H.
    assert (q <= 12009599006321323) by (apply Z.div_le_upper_bound; lia).
    assert (q / 2 < 6004799503160662) by (apply Z.div_lt_upper_bound; lia).
    lia. }
  assert (Hq3 : Zpos mu = 4503599627370496 -> 6755399441055744 <= Zpos mt ->
                q <= 6004799503160662)
    by (clear - Hmt Hmu; intros H H'; apply Z.div_le_upper_bound; lia).
  set (h := q / 2) in *. clearbody h q.
  destruct (Z.lt_ge_cases (Zpos mu) (Zpos mt)) as [L|G].
  - specialize (Hlo L). clear Hhi.
    split; [destruct Hlo as [[? _]|[? _]], HU as [[? _]|[? _]],
                     HT as [[? _]|[? _]]; lia|].
    destruct HU as [[Eu [Xu Ru]]|[Eu [Mu [Du Cu]]]];
    destruct HT as [[Et [Xt Rt]]|[Et [Mt [Dt Ct]]]];
    destruct Hlo as [[He Hv]|[He Hv]]; lia.
  - specialize (Hhi G). clear Hlo.
    split; [destruct Hhi as [[? _]|[? _]], HU as [[? _]|[? _]],
                     HT as [[? _]|[? _]]; lia|].
    destruct HU as [[Eu [Xu Ru]]|[Eu [Mu [Du Cu]]]];
    destruct HT as [[Et [Xt Rt]]|[Et [Mt [Dt Ct]]]];
    destruct Hhi as [[He Hv]|[He Hv]]; lia.
Qed.

(** The disk check cannot fire with 2^63 bytes or more free. *)
Lemma pct_when_half_free used total :
  0 <= used -> used + 2 ^ 63 <= total -> total <= maxUint64 ->
  fgt (pct used total) (float64_of_Z freeDiscSpaceThreshold) = false.
Proof.
  intros Hu Hfree Hmax. unfold pct.
  destruct (Z.eq_dec used 0) as [->|Hnz].
  - unfold maxUint64 in Hmax.
    change (2 ^ 63) with 9223372036854775808 in Hfree.
    assert (Hdt : Zdigits2 total = 64)
      by (apply Zdigits2_unique; [lia|];
          change (2 ^ (64 - 1)) with 9223372036854775808;
          change (2 ^ 64) with 18446744073709551616; lia).
    destruct (float64_of_Z_spec total 64 ltac:(lia) Hdt ltac:(lia))
      as (mt & et & -> & _).
    reflexivity.
  - destruct (quotient_when_half_free used total ltac:(lia) Hfree Hmax)
      as (mq & eq & -> & Hmq & Hlo & Hb).
    now apply pct_of_small_quotient.
Qed.

(** The product of two normal numbers, away from overflow and underflow,
    is a normal number. *)
Lemma fmul_spec mx ex my ey :
  2 ^ 52 <= Zpos mx < 2 ^ 53 -> 2 ^ 52 <= Zpos my < 2 ^ 53 ->
  -900 <= ex + ey <= 800 ->
  exists m e,
    fmul (S754_finite false mx ex) (S754_finite false my ey)
      = S754_finite false m e
    /\ 2 ^ 52 <= Zpos m < 2 ^ 53
    /\ ex + ey + 52 <= e <= ex + ey + 54.
Proof.
  intros Hx Hy He. unfold fmul, SFmul. simpl xorb.
  rewrite Pos2Z.inj_mul. set (P := Zpos mx * Zpos my).
  change (2 ^ 52) with 4503599627370496 in *.
  change (2 ^ 53) with 9007199254740992 in *.
  assert (HP : 20282409603651670423947251286016 <= P
               < 81129638414606681695789005144064) by (subst P; nia).
  destruct (Z.lt_ge_cases P 40564819207303340847894502572032) as [Hlt|Hge].
  - assert (Hd : Zdigits2 P = 105)
      by (apply Zdigits2_unique; [lia|];
          change (2 ^ (105 - 1)) with 20282409603651670423947251286016;
          change (2 ^ 105) with 40564819207303340847894502572032; lia).
    destruct (binary_round_aux_spec P (ex + ey) loc_Exact 105
                ltac:(lia) Hd ltac:(lia) ltac:(lia) ltac:(lia))
      as (m & e & Hr & _ & Hm & Hcase).
    exists m, e. split; [exact Hr|]. split; [exact Hm|]. lia.
  - assert (Hd : Zdigits2 P = 106)
      by (apply Zdigits2_unique; [lia|];
          change (2 ^ (106 - 1)) with 40564819207303340847894502572032;
          change (2 ^ 106) with 81129638414606681695789005144064; lia).
    destruct (binary_round_aux_spec P (ex + ey) loc_Exact 106
                ltac:(lia) Hd ltac:(lia) ltac:(lia) ltac:(lia))
      as (m & e & Hr & _ & Hm & Hcase).
    exists m, e. split; [exact Hr|]. split; [exact Hm|]. lia.
Qed.

(** The figure of the network line is a positive number whenever the
    difference it is computed from is not zero. *)
Lemma freeMbit_positive s :
  0 < wrap64 (netCap s - netUsed s) ->
  exists m e, freeMbit s = S754_finite false m e.
Proof.
  intros Hw. unfold freeMbit.
  set (w := wrap64 (netCap s - netUsed s)) in *.
  assert (Hw64 : w < 2 ^ 64)
    by (subst w; unfold wrap64; apply Z.mod_pos_bound; lia).
  pose proof (Zdigits2_le w 64 ltac:(lia) ltac:(lia)) as Hd.
  destruct (float64_of_Z_spec w (Zdigits2 w) Hw eq_refl ltac:(lia))
    as (m1 & e1 & -> & Hm1 & H1).
  change (float64_of_Z 8) with (S754_finite false 4503599627370496 (-49)).
  destruct (fmul_spec m1 e1 4503599627370496 (-49) Hm1
              ltac:(change (2 ^ 52) with 4503599627370496;
                    change (2 ^ 53) with 9007199254740992; lia)
              ltac:(lia))
    as (m2 & e2 & -> & Hm2 & H2).
  change (float64_of_Z 1000000)
    with (S754_finite false 8589934592000000 (-33)).
  destruct (fdiv_spec m2 e2 8589934592000000 (-33) Hm2
              ltac:(change (2 ^ 52) with 4503599627370496;
                    change (2 ^ 53) with 9007199254740992; lia)
              ltac:(lia))
    as (m3 & e3 & -> & _).
  now exists m3, e3.
Qed.

Lemma Zdigits2_mono a b : 0 < a <= b -> Zdigits2 a <= Zdigits2 b.
Proof.
  intros H. destruct a as [|p|p], b as [|q|q]; try lia. simpl.
  pose proof (digits2_pos_bounds p) as Hp.
  pose proof (digits2_pos_bounds q) as Hq.
  destruct (Z.le_gt_cases (Zpos (digits2_pos p)) (Zpos (digits2_pos q)))
    as [L|G]; [exact L|].
  assert (2 ^ Zpos (digits2_pos q) <= 2 ^ (Zpos (digits2_pos p) - 1))
    by (apply Z.pow_le_mono_r; lia).
  lia.
Qed.

(** A quotient of at least [1 - 2^-52] gives a percentage above 90. *)
Lemma pct_of_large_quotient mq eq :
  2 ^ 52 <= Zpos mq < 2 ^ 53 -> eq <= 800 ->
  -52 <= eq \/ (eq = -53 /\ 2 ^ 53 - 2 <= Zpos mq) ->
  fgt (fmul (S754_finite false mq eq) (float64_of_Z 100))
      (float64_of_Z 90) = true.
Proof.
  intros Hq Hhi Hb.
  destruct (fmul_100_spec mq eq Hq ltac:(lia)) as (m & e & -> & Hm & H1 & H2).
  change (float64_of_Z 90) with (S754_finite false 6333186975989760 (-46)).
  set (P := Zpos mq * 7036874417766400) in *.
  change (2 ^ 52) with 4503599627370496 in *.
  change (2 ^ 53) with 9007199254740992 in *.
  change (2 ^ 105) with 40564819207303340847894502572032 in *.
  assert (Hres : -46 < e \/ (e = -46 /\ 6333186975989760 < Zpos m)).
  { destruct (Z.lt_ge_cases P 40564819207303340847894502572032) as [Hlt|Hge].
    - destruct (H1 Hlt) as [[He Hv]|[He Hm']].
      + destruct Hb as [Hb|[Hb Hmq]]; [|subst P; lia].
        assert (7036874417766400 <= P / 4503599627370496)
          by (apply Z.div_le_lower_bound; subst P; lia).
        lia.
      + destruct Hb as [Hb|[Hb Hmq]]; [lia | subst P; lia].
    - destruct (H2 Hge) as [[He Hv]|[He [Hm' Hc]]].
      + destruct Hb as [Hb|[Hb Hmq]]; [lia|].
        assert (7036874417766398 <= P / 9007199254740992)
          by (apply Z.div_le_lower_bound; subst P; lia).
        lia.
      + lia. }
  unfold fgt, SFltb, SFcompare.
  destruct Hres as [He|[He Hv]].
  - assert (Hc : (-46 ?= e) = Lt) by (apply Z.compare_lt_iff; lia).
    now rewrite Hc.
  - subst e. rewrite Z.compare_refl.
    change (Pos.compare_cont Eq 6333186975989760 m)
      with (Pos.compare 6333186975989760 m).
    rewrite Pos2Z.inj_compare.
    destruct (Z.compare_spec 6333186975989760 (Zpos m)); try reflexivity; lia.
Qed.

(** With more used than the total, the quotient
    [float64(used) / float64(total)] is at least [1 - 2^-52]. *)
Lemma quotient_when_exceeding used total :
  0 < total -> total < used -> used <= maxUint64 ->
  exists mq eq,
    fdiv (float64_of_Z used) (float64_of_Z total) = S754_finite false mq eq
    /\ 2 ^ 52 <= Zpos mq < 2 ^ 53 /\ eq <= 800
    /\ (-52 <= eq \/ (eq = -53 /\ 2 ^ 53 - 2 <= Zpos mq)).
Proof.
  intros Ht Hlt Hmax. unfold maxUint64 in Hmax.
  pose proof (Zdigits2_le used 64
                ltac:(change (2 ^ 64) with 18446744073709551616; lia)
                ltac:(lia)) as Hdu.
  pose proof (Zdigits2_le total 64
                ltac:(change (2 ^ 64) with 18446744073709551616; lia)
                ltac:(lia)) as Hdt.
  pose proof (Zdigits2_mono total used ltac:(lia)) as Hmono.
  set (du := Zdigits2 used) in *. set (dt := Zdigits2 total) in *.
  destruct (float64_of_Z_spec total dt ltac:(lia) eq_refl ltac:(lia))
    as (mt & et & -> & Hmt & HT).
  destruct (float64_of_Z_spec used du ltac:(lia) eq_refl ltac:(lia))
    as (mu & eu & -> & Hmu & HU).
  (* with the same number of bits, the scaled or the leading bits of
     [used] are not below those of [total] *)
  assert (Hsmall : du = dt -> du <= 53 ->
                   total * 2 ^ (53 - dt) < used * 2 ^ (53 - du)).
  { intros E L. rewrite <- E.
    apply Z.mul_lt_mono_pos_r; [apply Z.pow_pos_nonneg; lia | exact Hlt]. }
  assert (Hdiv : du = dt -> 53 <= du ->
                 total / 2 ^ (dt - 53) <= used / 2 ^ (du - 53)).
  { intros E L. rewrite <- E.
    apply Z.div_le_mono; [apply Z.pow_pos_nonneg; lia | lia]. }
  set (xu := used * 2 ^ (53 - du)) in *.
  set (xt := total * 2 ^ (53 - dt)) in *.
  set (ku := used / 2 ^ (du - 53)) in *.
  set (kt := total / 2 ^ (dt - 53)) in *.
  clearbody xu xt ku kt du dt. clear Ht Hlt Hmax.
  assert (Hdelta : -1000 <= eu - et <= 900)
    by (destruct HU as [[? _]|[? _]], HT as [[? _]|[? _]]; lia).
  destruct (fdiv_spec mu eu mt et Hmu Hmt Hdelta)
    as (mq & eq & -> & Hmq & Hlo & Hhi).
  exists mq, eq. split; [reflexivity|]. split; [exact Hmq|].
  set (q := Zpos mu * 2 ^ 53 / Zpos mt) in *.
  change (2 ^ 52) with 4503599627370496 in *.
  change (2 ^ 53) with 9007199254740992 in *.
  assert (Hq1 : Zpos mt - 1 <= Zpos mu -> 9007199254740990 <= q)
    by (clear - Hmt Hmu; intros H; apply Z.div_le_lower_bound; lia).
  assert (Hq2 : Zpos mt = 4503599627370496 -> 9007199254740991 <= Zpos mu ->
                9007199254740991 <= q / 2).
  { clear - Hmt Hmu. intros H H'.
    assert (18014398509481982 <= q) by (apply Z.div_le_lower_bound; lia).
    apply Z.div_le_lower_bound; lia. }
  set (h := q / 2) in *. clearbody h q.
  destruct (Z.lt_ge_cases (Zpos mu) (Zpos mt)) as [L|G].
  - specialize (Hlo L). clear Hhi Hq2.
    split; [destruct Hlo as [[? _]|[? _]]; lia|].
    destruct HU as [[Eu [Xu Ru]]|[Eu [Mu [Du Cu]]]];
    destruct HT as [[Et [Xt Rt]]|[Et [Mt [Dt Ct]]]];
    destruct Hlo as [[He Hv]|[He Hv]]; lia.
  - specialize (Hhi G). clear Hlo Hq1.
    split; [destruct Hhi as [[? _]|[? _]]; lia|].
    destruct HU as [[Eu [Xu Ru]]|[Eu [Mu [Du Cu]]]];
    destruct HT as [[Et [Xt Rt]]|[Et [Mt [Dt Ct]]]];
    destruct Hhi as [[He Hv]|[He Hv]]; lia.
Qed.

(** A check fires whenever its numerator exceeds its denominator. *)
Lemma pct_when_exceeding used total :
  0 < total -> total < used -> used <= maxUint64 ->
  fgt (pct used total) (float64_of_Z 90) = true.
Proof.
  intros Ht Hlt Hmax. unfold pct.
  destruct (quotient_when_exceeding used total Ht Hlt Hmax)
    as (mq & eq & -> & Hmq & Hhi & Hb).
  now apply pct_of_large_quotient.
Qed.

(** ** What the checks print *)

Ltac lines_cases s :=
  unfold loadLine, memLine, diskLine, netLine in *;
  destruct (loadAvg s >? loadAverageThreshold) eqn:?;
  destruct (fgt (memPct s) (float64_of_Z memoryUsageThreshold)) eqn:?;
  destruct (fgt (diskPct s) (float64_of_Z freeDiscSpaceThreshold)) eqn:?;
  destruct (fgt (netPct s) (float64_of_Z networkBandwidthThreshold)) eqn:?.

(** A line is printed only by its own check, past the guards before it, on
    a strict comparison, and carries the value that check computes. *)
Lemma printed_only_if s out new r :
  checks s out = (out ++ new, r) ->
  (forall v, In (LoadAverageTooHigh v) new ->
     loadAvg s > loadAverageThreshold /\ v = loadAvg s)
  /\ (forall p, In (MemoryUsageTooHigh p) new ->
     memTotal s <> 0
     /\ fgt (memPct s) (float64_of_Z memoryUsageThreshold) = true
     /\ p = memPct s)
  /\ (forall v, In (FreeDiskSpaceTooLow v) new ->
     memTotal s <> 0 /\ diskTotal s <> 0
     /\ fgt (diskPct s) (float64_of_Z freeDiscSpaceThreshold) = true
     /\ v = freeMB s)
  /\ (forall p, In (NetworkBandwidthHigh p) new ->
     memTotal s <> 0 /\ diskTotal s <> 0 /\ netCap s <> 0
     /\ fgt (netPct s) (float64_of_Z networkBandwidthThreshold) = true
     /\ p = freeMbit s).
Proof.
  rewrite checks_eq. intros H.
  destruct (memTotal s =? 0) eqn:Em;
  [|destruct (diskTotal s =? 0) eqn:Ed;
    [|destruct (netCap s =? 0) eqn:En]];
  injection H as H _; apply app_inv_head in H; subst new;
  rewrite ?Z.eqb_neq in *;
  lines_cases s; simpl;
  repeat split;
  try match goal with
      | H : In _ _ |- _ => simpl in H
      end;
  intuition (try discriminate; try congruence; try lia).
Qed.

(** ** Remaining capacity *)

Lemma int64_of_uint64_small x : 0 <= x < 2 ^ 63 -> int64_of_uint64 x = x.
Proof.
  unfold int64_of_uint64. intros H.
  destruct (x <? 2 ^ 63) eqn:E; [reflexivity | lia].
Qed.

Lemma wrap64_underflow a b :
  0 <= a <= maxUint64 -> 0 <= b <= maxUint64 -> a < b ->
  wrap64 (a - b) = 2 ^ 64 - (b - a).
Proof.
  unfold wrap64, maxUint64. intros Ha Hb Hlt. symmetry.
  apply (Z.mod_unique _ _ (-1)); change (2 ^ 64) with 18446744073709551616; lia.
Qed.

Lemma freeMB_no_underflow s :
  0 <= diskTotal s - diskUsed s < 2 ^ 63 ->
  freeMB s = (diskTotal s - diskUsed s) / 1048576.
Proof.
  intros H. unfold freeMB.
  rewrite wrap64_small by (unfold maxUint64; lia).
  rewrite int64_of_uint64_small by assumption.
  apply Z.quot_div_nonneg; lia.
Qed.

Lemma freeMB_underflow s :
  0 <= diskTotal s <= maxUint64 -> 0 <= diskUsed s <= maxUint64 ->
  diskTotal s < diskUsed s ->
  (diskUsed s - diskTotal s <= 2 ^ 63 ->
     freeMB s = - ((diskUsed s - diskTotal s) / 1048576))
  /\ (2 ^ 63 < diskUsed s - diskTotal s ->
     freeMB s = (2 ^ 64 - (diskUsed s - diskTotal s)) / 1048576).
Proof.
  intros Ht Hu Hlt. unfold freeMB.
  rewrite (wrap64_underflow _ _ Ht Hu Hlt).
  unfold int64_of_uint64, maxUint64 in *.
  change (1024 * 1024) with 1048576.
  split; intros H.
  - destruct (2 ^ 64 - (diskUsed s - diskTotal s) <? 2 ^ 63) eqn:E; [lia|].
    replace (2 ^ 64 - (diskUsed s - diskTotal s) - 2 ^ 64)
      with (- (diskUsed s - diskTotal s)) by lia.
    rewrite Z.quot_opp_l by lia. f_equal.
    apply Z.quot_div_nonneg; lia.
  - destruct (2 ^ 64 - (diskUsed s - diskTotal s) <? 2 ^ 63) eqn:E; [|lia].
    apply Z.quot_div_nonneg; lia.
Qed.

(** When the disk check is reached and fires, its line is printed once,
    between the lines of the checks before and after it. *)
Lemma disk_line_printed s out :
  memTotal s <> 0 -> diskTotal s <> 0 ->
  fgt (diskPct s) (float64_of_Z freeDiscSpaceThreshold) = true ->
  exists pre post r,
    checks s out = (out ++ pre ++ [FreeDiskSpaceTooLow (freeMB s)] ++ post, r)
    /\ (forall v, ~ In (FreeDiskSpaceTooLow v) pre)
    /\ (forall v, ~ In (FreeDiskSpaceTooLow v) post).
Proof.
  intros Hm Hd Hg. apply Z.eqb_neq in Hm, Hd.
  exists (loadLine s ++ memLine s),
         (if netCap s =? 0 then [] else netLine s),
         (if netCap s =? 0 then inr ErrNetCap0 else inl tt).
  split; [|split].
  - rewrite checks_eq, Hm, Hd. unfold diskLine. rewrite Hg.
    destruct (netCap s =? 0); rewrite <- ?app_assoc; reflexivity.
  - intros v Hin. lines_cases s; simpl in Hin;
      intuition discriminate.
  - intros v Hin. destruct (netCap s =? 0); [exact Hin|].
    lines_cases s; simpl in Hin; intuition discriminate.
Qed.

(** When the network check is reached and fires, its line is the last one
    and the cycle succeeds. *)
Lemma net_line_printed s out :
  memTotal s <> 0 -> diskTotal s <> 0 -> netCap s <> 0 ->
  fgt (netPct s) (float64_of_Z networkBandwidthThreshold) = true ->
  exists pre,
    checks s out = (out ++ pre ++ [NetworkBandwidthHigh (freeMbit s)], inl tt)
    /\ (forall p, ~ In (NetworkBandwidthHigh p) pre).
Proof.
  intros Hm Hd Hn Hg. apply Z.eqb_neq in Hm, Hd, Hn.
  exists (loadLine s ++ memLine s ++ diskLine s).
  split.
  - rewrite checks_eq, Hm, Hd, Hn. unfold netLine. rewrite Hg.
    rewrite <- ?app_assoc; reflexivity.
  - intros v Hin. lines_cases s; simpl in Hin; intuition discriminate.
Qed.

(** ** The scenarios of the specification *)

Example scenario_B :
  pollOnce (ok "45,1000,900,1000,500,1000,500") []
  = ([LoadAverageTooHigh 45; MemoryUsageTooHigh (float64_of_Z 90)], inl tt).
Proof. reflexivity. Qed.

Example scenario_D :
  tick (ok "5,0,0,1000,100,1000,50") [] = [UnableToFetch].
Proof. reflexivity. Qed.

Example scenario_E :
  errNum (snapshot_of "a,b,c,1000,100,1000,50") = 3
  /\ pollOnce (ok "a,b,c,1000,100,1000,50") [] = ([], inr ErrMemTotal0).
Proof. split; reflexivity. Qed.

Example scenario_F :
  pollOnce (ok "1,2,3,4,5,6,7,8") [] = ([], inr (ErrFieldNumber 8)).
Proof. reflexivity. Qed.

(** The transport errors end the cycle before the body is looked at. *)
Example transport_errors :
  pollOnce DoFailed [] = ([], inr ErrDo)
  /\ pollOnce (Response 503 (Some "1,2,3,4,5,6,7")) []
     = ([], inr (ErrBadStatus 503))
  /\ pollOnce (Response 200 None) [] = ([], inr ErrReadAll).
Proof. repeat split. Qed.

(** White space around the line and around each field is trimmed; an
    empty field is kept and fails as a number. *)
Example trimming :
  parts_of " 10 , 2000,,3
" = ["10"; "2000"; ""; "3"]
  /\ strconv.ParseUint "" = (0, Some strconv.ErrSyntax)
  /\ strconv.ParseUint "+5" = (0, Some strconv.ErrSyntax)
  /\ strconv.ParseUint "0x10" = (0, Some strconv.ErrSyntax)
  /\ strconv.ParseUint "007" = (7, None).
Proof. repeat split. Qed.

(** ** The three outcomes of a field *)

Lemma String_split s : s = (leadingDigits s ++ afterDigits s)%string.
Proof.
  induction s as [|c t IH]; simpl; [reflexivity|].
  destruct (isDigit c); simpl; [now rewrite <- IH | reflexivity].
Qed.

Lemma leadingDigits_allDigits s : allDigits (leadingDigits s) = true.
Proof.
  induction s as [|c t IH]; simpl; [reflexivity|].
  destruct (isDigit c) eqn:E; simpl; [now rewrite E | reflexivity].
Qed.

(** A byte that is not a digit ends the loop with a syntax error. *)
Lemma ParseUint_loop_not_digit c t n :
  isDigit c = false ->
  strconv.ParseUint_loop (String c t) n = (0, Some strconv.ErrSyntax).
Proof.
  intros Hc. simpl. unfold strconv.digit, isDigit in *.
  rewrite Hc.
  destruct ((97 <=? strconv.lower (byte_of c))
            && (strconv.lower (byte_of c) <=? 122)) eqn:E; [|reflexivity].
  apply andb_true_iff in E as [E1 E2].
  unfold strconv.base.
  destruct (strconv.lower (byte_of c) - 97 + 10 >=? 10) eqn:E3;
    [reflexivity | lia].
Qed.

(** The loop on digits followed by anything. *)
Lemma ParseUint_loop_app d : forall t n,
  allDigits d = true -> 0 <= n <= maxUint64 ->
  strconv.ParseUint_loop (d ++ t)%string n =
    if valueFrom n d <=? maxUint64
    then strconv.ParseUint_loop t (valueFrom n d)
    else (maxUint64, Some strconv.ErrRange).
Proof.
  induction d as [|c d IH]; intros t n Hd Hn.
  - simpl. destruct (n <=? maxUint64) eqn:E; [reflexivity|].
    apply Z.leb_gt in E. lia.
  - simpl in Hd. apply andb_true_iff in Hd as [Hc Ht].
    pose proof (isDigit_bounds c Hc) as Hb.
    cbn [String.append strconv.ParseUint_loop valueFrom].
    rewrite (digit_of_isDigit c Hc), maxVal_eq, cutoff_eq.
    set (v := byte_of c - 48) in *.
    unfold strconv.base.
    destruct (v >=? 10) eqn:E1; [lia|].
    pose proof (valueFrom_ge d (n * 10 + v) Ht) as Hge.
    unfold maxUint64 in *.
    destruct (n >=? 1844674407370955162) eqn:E2.
    + destruct (valueFrom (n * 10 + v) d <=? 18446744073709551615) eqn:E3;
        [lia | reflexivity].
    + assert (Hn10 : wrap64 (n * 10) = n * 10)
        by (apply wrap64_small; unfold maxUint64; lia).
      rewrite Hn10.
      destruct (n * 10 + v <=? 18446744073709551615) eqn:E4.
      * assert (Hn1 : wrap64 (n * 10 + v) = n * 10 + v)
          by (apply wrap64_small; unfold maxUint64; lia).
        rewrite Hn1.
        destruct ((n * 10 + v <? n * 10) || (n * 10 + v >? 18446744073709551615))
          eqn:E5; [lia|].
        apply IH; [assumption | lia].
      * assert (Hn1 : wrap64 (n * 10 + v) = n * 10 + v - 18446744073709551616).
        { unfold wrap64. symmetry.
          apply (Z.mod_unique _ _ 1); change (2 ^ 64) with 18446744073709551616; lia. }
        rewrite Hn1.
        destruct ((n * 10 + v - 18446744073709551616 <? n * 10)
                  || (n * 10 + v - 18446744073709551616 >? 18446744073709551615))
          eqn:E5; [|lia].
        destruct (valueFrom (n * 10 + v) d <=? 18446744073709551615) eqn:E3;
          [lia | reflexivity].
Qed.

Lemma afterDigits_head s :
  afterDigits s = EmptyString
  \/ exists c t, afterDigits s = String c t /\ isDigit c = false.
Proof.
  induction s as [|c t IH]; simpl; [now left|].
  destruct (isDigit c) eqn:E; [exact IH|]. right. now exists c, t.
Qed.

(** ** Whole cycles *)

(** A cycle appends to the output and never reads it. *)
Lemma pollOnce_frame r out :
  pollOnce r out = (out ++ fst (pollOnce r []), snd (pollOnce r [])).
Proof.
  destruct r as [|code [body|]]; unfold pollOnce, bind, fetch, fail, ret;
    try (now rewrite app_nil_r).
  - destruct (negb (code =? StatusOK)); [now rewrite app_nil_r|].
    rewrite !pollBody_eq.
    destruct (negb (Z.of_nat (List.length (parts_of body)) =? 7));
      [now rewrite app_nil_r|].
    destruct (errNum (snapshot_of body) >? 3); [now rewrite app_nil_r|].
    rewrite (checks_frame _ out), (checks_frame _ []). reflexivity.
  - destruct (negb (code =? StatusOK)); now rewrite app_nil_r.
Qed.

Lemma tick_frame r out : tick r out = out ++ tick r [].
Proof.
  unfold tick. rewrite (pollOnce_frame r out).
  destruct (pollOnce r []) as [new [[]|e]]; simpl;
    [reflexivity | now rewrite app_assoc].
Qed.

(** The outcome of a cycle, case by case. *)
Lemma pollOnce_cases r :
  (exists e, pollOnce r [] = ([], inr e)
             /\ ~ (exists body, r = ok body /\ usable body))
  \/ (exists body, r = ok body /\ usable body
                   /\ pollOnce r [] = checks (snapshot_of body) []).
Proof.
  destruct r as [|code [body|]].
  - left. exists ErrDo. split; [reflexivity|].
    intros (b & Hb & _). discriminate.
  - destruct (code =? StatusOK) eqn:Ec.
    + apply Z.eqb_eq in Ec. subst code. fold (ok body).
      rewrite pollOnce_ok, pollBody_eq.
      destruct (Z.of_nat (List.length (parts_of body)) =? 7) eqn:El.
      * apply Z.eqb_eq in El. simpl.
        destruct (errNum (snapshot_of body) >? 3) eqn:Ee.
        -- left. eexists. split; [reflexivity|].
           intros (b & Hb & _ & Hu). injection Hb as <-. lia.
        -- right. exists body. split; [reflexivity|].
           split; [split; [unfold wellFormed; lia | lia] | reflexivity].
      * apply Z.eqb_neq in El. simpl.
        left. eexists. split; [reflexivity|].
        intros (b & Hb & Hw & _). injection Hb as <-.
        unfold wellFormed in Hw. lia.
    + left. exists (ErrBadStatus code).
      split; [unfold pollOnce, bind, fetch; now rewrite Ec|].
      intros (b & Hb & _). injection Hb as Hb _. subst code. discriminate.
  - left. destruct (code =? StatusOK) eqn:Ec.
    + exists ErrReadAll.
      split; [unfold pollOnce, bind, fetch; now rewrite Ec|].
      intros (b & Hb & _). discriminate.
    + exists (ErrBadStatus code).
      split; [unfold pollOnce, bind, fetch; now rewrite Ec|].
      intros (b & Hb & _). discriminate.
Qed.

(** ** Percentages against a threshold *)

(** A percentage at an exponent below that of the threshold, or at the same
    exponent with a mantissa that is not greater, is not above it. *)
Lemma fgt_false_of_shape m e mthr :
  e < -46 \/ (e = -46 /\ Zpos m <= Zpos mthr) ->
  fgt (S754_finite false m e) (S754_finite false mthr (-46)) = false.
Proof.
  intros H. unfold fgt, SFltb, SFcompare.
  destruct H as [He|[He Hv]].
  - assert (Hc : (-46 ?= e) = Gt) by (apply Z.compare_gt_iff; lia).
    now rewrite Hc.
  - subst e. rewrite Z.compare_refl.
    change (Pos.compare_cont Eq mthr m) with (Pos.compare mthr m).
    rewrite Pos2Z.inj_compare.
    destruct (Z.compare_spec (Zpos mthr) (Zpos m)); try reflexivity. lia.
Qed.

Lemma fgt_true_of_shape m e mthr :
  -46 < e \/ (e = -46 /\ Zpos mthr < Zpos m) ->
  fgt (S754_finite false m e) (S754_finite false mthr (-46)) = true.
Proof.
  intros H. unfold fgt, SFltb, SFcompare.
  destruct H as [He|[He Hv]].
  - assert (Hc : (-46 ?= e) = Lt) by (apply Z.compare_lt_iff; lia).
    now rewrite Hc.
  - subst e. rewrite Z.compare_refl.
    change (Pos.compare_cont Eq mthr m) with (Pos.compare mthr m).
    rewrite Pos2Z.inj_compare.
    destruct (Z.compare_spec (Zpos mthr) (Zpos m)); try reflexivity; lia.
Qed.

(** A quotient of at most 3/4 gives a percentage of at most 75 and a unit
    in the last place. *)
Lemma pct_shape_of_small_quotient mq eq :
  2 ^ 52 <= Zpos mq < 2 ^ 53 -> -1000 <= eq ->
  eq <= -54 \/ (eq = -53 /\ Zpos mq <= 3 * 2 ^ 51) ->
  exists m e,
    fmul (S754_finite false mq eq) (float64_of_Z 100) = S754_finite false m e
    /\ (e < -46 \/ (e = -46 /\ Zpos m <= 5277655813324801)).
Proof.
  intros Hq Hlo Hb.
  destruct (fmul_100_spec mq eq Hq ltac:(lia)) as (m & e & -> & Hm & H1 & H2).
  exists m, e. split; [reflexivity|].
  set (P := Zpos mq * 7036874417766400) in *.
  change (2 ^ 52) with 4503599627370496 in *.
  change (2 ^ 53) with 9007199254740992 in *.
  change (2 ^ 51) with 2251799813685248 in *.
  change (2 ^ 105) with 40564819207303340847894502572032 in *.
  assert (HP : eq = -53 -> Zpos mq <= 3 * 2251799813685248 ->
               P / 9007199254740992 <= 5277655813324800)
    by (intros _ H; apply Z.div_le_upper_bound; subst P; lia).
  set (h := P / 9007199254740992) in *. set (g := P / 4503599627370496) in *.
  clearbody h g.
  destruct (Z.lt_ge_cases P 40564819207303340847894502572032) as [Hlt|Hge].
  - destruct (H1 Hlt) as [[He _]|[He Hm']]; lia.
  - destruct (H2 Hge) as [[He Hv]|[He [Hm' Hc]]]; lia.
Qed.

(** A quotient of at least [1 - 2^-52] gives a percentage of at least 100
    less two units in the last place. *)
Lemma pct_shape_of_large_quotient mq eq :
  2 ^ 52 <= Zpos mq < 2 ^ 53 -> eq <= 800 ->
  -52 <= eq \/ (eq = -53 /\ 2 ^ 53 - 2 <= Zpos mq) ->
  exists m e,
    fmul (S754_finite false mq eq) (float64_of_Z 100) = S754_finite false m e
    /\ (-46 < e \/ (e = -46 /\ 7036874417766398 <= Zpos m)).
Proof.
  intros Hq Hhi Hb.
  destruct (fmul_100_spec mq eq Hq ltac:(lia)) as (m & e & -> & Hm & H1 & H2).
  exists m, e. split; [reflexivity|].
  set (P := Zpos mq * 7036874417766400) in *.
  change (2 ^ 52) with 4503599627370496 in *.
  change (2 ^ 53) with 9007199254740992 in *.
  change (2 ^ 105) with 40564819207303340847894502572032 in *.
  assert (HP1 : 7036874417766400 <= P / 4503599627370496)
    by (apply Z.div_le_lower_bound; subst P; lia).
  assert (HP2 : 9007199254740992 - 2 <= Zpos mq ->
                7036874417766398 <= P / 9007199254740992)
    by (intros H; apply Z.div_le_lower_bound; subst P; lia).
  assert (HP3 : 9007199254740992 - 2 <= Zpos mq ->
                40564819207303340847894502572032 <= P) by (subst P; lia).
  set (h := P / 9007199254740992) in *. set (g := P / 4503599627370496) in *.
  clearbody h g P.
  destruct (Z.lt_ge_cases P 40564819207303340847894502572032) as [Hlt|Hge].
  - destruct (H1 Hlt) as [[He Hv]|[He Hm']]; lia.
  - destruct (H2 Hge) as [[He Hv]|[He [Hm' Hc]]]; lia.
Qed.

(** A percentage check fires whenever what is used exceeds the total:
    for memory, with [memUsed > memTotal] and [memTotal] not zero the memory
    line is printed, with the percentage. *)
Lemma pct_above_80_when_exceeding used total :
  0 < total -> total < used -> used <= maxUint64 ->
  fgt (pct used total) (float64_of_Z memoryUsageThreshold) = true.
Proof.
  intros Ht Hlt Hmax. unfold pct.
  destruct (quotient_when_exceeding used total Ht Hlt Hmax)
    as (mq & eq & -> & Hmq & Hhi & Hb).
  destruct (pct_shape_of_large_quotient mq eq Hmq Hhi Hb) as (m & e & -> & Hs).
  change (float64_of_Z memoryUsageThreshold)
    with (S754_finite false 5629499534213120 (-46)).
  apply fgt_true_of_shape. lia.
Qed.

Lemma Zdigits2_double x : 0 < x -> Zdigits2 (2 * x) = Zdigits2 x + 1.
Proof.
  intros H. destruct x as [|p|p]; try lia.
  change (2 * Zpos p) with (Zpos p~0). simpl. lia.
Qed.

(** With at most half of the total used, the quotient
    [float64(used) / float64(total)] is at most 3/4. *)
Lemma quotient_when_half_used used total :
  0 < used -> 2 * used <= total -> total <= maxUint64 ->
  exists mq eq,
    fdiv (float64_of_Z used) (float64_of_Z total) = S754_finite false mq eq
    /\ 2 ^ 52 <= Zpos mq < 2 ^ 53 /\ -1000 <= eq
    /\ (eq <= -54 \/ (eq = -53 /\ Zpos mq <= 3 * 2 ^ 51)).
Proof.
  intros Hu Hhalf Hmax. unfold maxUint64 in Hmax.
  pose proof (Zdigits2_le used 64
                ltac:(change (2 ^ 64) with 18446744073709551616; lia)
                ltac:(lia)) as Hdu.
  pose proof (Zdigits2_le total 64
                ltac:(change (2 ^ 64) with 18446744073709551616; lia)
                ltac:(lia)) as Hdt.
  pose proof (Zdigits2_mono (2 * used) total ltac:(lia)) as Hmono.
  rewrite Zdigits2_double in Hmono by assumption.
  set (du := Zdigits2 used) in *. set (dt := Zdigits2 total) in *.
  destruct (float64_of_Z_spec total dt ltac:(lia) eq_refl ltac:(lia))
    as (mt & et & -> & Hmt & HT).
  destruct (float64_of_Z_spec used du ltac:(lia) eq_refl ltac:(lia))
    as (mu & eu & -> & Hmu & HU).
  (* with one bit more in [total], its scaled or leading bits are not
     below those of [used] *)
  assert (Hsmall : dt = du + 1 -> dt <= 53 ->
                   used * 2 ^ (53 - du) <= total * 2 ^ (53 - dt)).
  { intros E L.
    replace (53 - du) with (Z.succ (53 - dt)) by lia.
    rewrite Z.pow_succ_r by lia.
    replace (used * (2 * 2 ^ (53 - dt))) with (2 * used * 2 ^ (53 - dt)) by lia.
    apply Z.mul_le_mono_nonneg_r; [apply Z.pow_nonneg; lia | exact Hhalf]. }
  assert (Hdiv : dt = du + 1 -> 53 <= du ->
                 used / 2 ^ (du - 53) <= total / 2 ^ (dt - 53)).
  { intros E L.
    replace (dt - 53) with (Z.succ (du - 53)) by lia.
    rewrite Z.pow_succ_r by lia.
    assert (0 < 2 ^ (du - 53)) by (apply Z.pow_pos_nonneg; lia).
    rewrite <- (Z.div_mul_cancel_l used (2 ^ (du - 53)) 2) by lia.
    apply Z.div_le_mono; lia. }
  assert (Hexact : du = 53 -> used * 2 ^ (53 - du) = used / 2 ^ (du - 53)).
  { intros E. rewrite E. change (2 ^ (53 - 53)) with 1.
    now rewrite Z.mul_1_r, Z.div_1_r. }
  set (xu := used * 2 ^ (53 - du)) in *.
  set (xt := total * 2 ^ (53 - dt)) in *.
  set (ku := used / 2 ^ (du - 53)) in *.
  set (kt := total / 2 ^ (dt - 53)) in *.
  clearbody xu xt ku kt du dt. clear Hu Hhalf Hmax.
  assert (Hdelta : -1000 <= eu - et <= 900)
    by (destruct HU as [[? _]|[? _]], HT as [[? _]|[? _]]; lia).
  destruct (fdiv_spec mu eu mt et Hmu Hmt Hdelta)
    as (mq & eq & -> & Hmq & Hlo & Hhi).
  exists mq, eq. split; [reflexivity|]. split; [exact Hmq|].
  set (q := Zpos mu * 2 ^ 53 / Zpos mt) in *.
  change (2 ^ 52) with 4503599627370496 in *.
  change (2 ^ 53) with 9007199254740992 in *.
  change (2 ^ 51) with 2251799813685248 in *.
  assert (Hq1 : Zpos mu <= Zpos mt + 1 ->
                q <= 9007199254740994 /\ q / 2 <= 4503599627370497).
  { clear - Hmt Hmu. intros H.
    assert (q <= 9007199254740994) by (apply Z.div_le_upper_bound; lia).
    split; [assumption | apply Z.div_le_upper_bound; lia]. }
  assert (Hq2 : Zpos mu = 4503599627370496 ->
                9007199254740991 <= Zpos mt -> q <= 4503599627370497)
    by (clear - Hmt Hmu; intros H H'; apply Z.div_le_upper_bound; lia).
  set (h := q / 2) in *. clearbody h q.
  destruct (Z.lt_ge_cases (Zpos mu) (Zpos mt)) as [L|G].
  - specialize (Hlo L). clear Hhi.
    split; [destruct Hlo as [[? _]|[? _]], HU as [[? _]|[? _]],
                     HT as [[? _]|[? _]]; lia|].
    destruct HU as [[Eu [Xu Ru]]|[Eu [Mu [Du Cu]]]];
    destruct HT as [[Et [Xt Rt]]|[Et [Mt [Dt Ct]]]];
    destruct Hlo as [[He Hv]|[He Hv]]; lia.
  - specialize (Hhi G). clear Hlo.
    split; [destruct Hhi as [[? _]|[? _]], HU as [[? _]|[? _]],
                     HT as [[? _]|[? _]]; lia|].
    destruct HU as [[Eu [Xu Ru]]|[Eu [Mu [Du Cu]]]];
    destruct HT as [[Et [Xt Rt]]|[Et [Mt [Dt Ct]]]];
    destruct Hhi as [[He Hv]|[He Hv]]; lia.
Qed.

(** The percentage of what is at most half used is at most 75 and a unit in
    the last place: no check fires on it. *)
Lemma pct_when_half_used used total :
  0 <= used -> 0 < total -> 2 * used <= total -> total <= maxUint64 ->
  fgt (pct used total) (float64_of_Z 80) = false
  /\ fgt (pct used total) (float64_of_Z 90) = false.
Proof.
  intros Hu Ht Hhalf Hmax. unfold pct.
  destruct (Z.eq_dec used 0) as [->|Hnz].
  - pose proof (Zdigits2_le total 64
                  ltac:(unfold maxUint64 in Hmax;
                        change (2 ^ 64) with 18446744073709551616; lia)
                  ltac:(lia)) as Hdt.
    destruct (float64_of_Z_spec total (Zdigits2 total) Ht eq_refl ltac:(lia))
      as (mt & et & -> & _).
    split; reflexivity.
  - destruct (quotient_when_half_used used total ltac:(lia) Hhalf Hmax)
      as (mq & eq & -> & Hmq & Hlo & Hb).
    destruct (pct_shape_of_small_quotient mq eq Hmq Hlo Hb)
      as (m & e & -> & Hs).
    change (float64_of_Z 80) with (S754_finite false 5629499534213120 (-46)).
    change (float64_of_Z 90) with (S754_finite false 6333186975989760 (-46)).
    split; apply fgt_false_of_shape; lia.
Qed.

(** A percentage is zero or a positive number: never negative, infinite or
    not a number. *)
Lemma pct_shape used total :
  0 <= used <= maxUint64 -> 0 < total <= maxUint64 ->
  pct used total = S754_zero false
  \/ exists m e, pct used total = S754_finite false m e.
Proof.
  intros Hu Ht. unfold pct, maxUint64 in *.
  pose proof (Zdigits2_le total 64
                ltac:(change (2 ^ 64) with 18446744073709551616; lia)
                ltac:(lia)) as Hdt.
  destruct (float64_of_Z_spec total (Zdigits2 total) ltac:(lia) eq_refl
              ltac:(lia)) as (mt & et & -> & Hmt & HT).
  destruct (Z.eq_dec used 0) as [->|Hnz]; [now left|].
  pose proof (Zdigits2_le used 64
                ltac:(change (2 ^ 64) with 18446744073709551616; lia)
                ltac:(lia)) as Hdu.
  destruct (float64_of_Z_spec used (Zdigits2 used) ltac:(lia) eq_refl
              ltac:(lia)) as (mu & eu & -> & Hmu & HU).
  assert (Hd : -1000 <= eu - et <= 900)
    by (destruct HU as [[? _]|[? _]], HT as [[? _]|[? _]]; lia).
  destruct (fdiv_spec mu eu mt et Hmu Hmt Hd)
    as (mq & eq & -> & Hmq & Hlo & Hhi).
  assert (He : -1000 <= eq <= 800).
  { destruct (Z.lt_ge_cases (Zpos mu) (Zpos mt)) as [L|G].
    - destruct (Hlo L) as [[? _]|[? _]]; lia.
    - destruct (Hhi G) as [[? _]|[? _]]; lia. }
  destruct (fmul_100_spec mq eq Hmq He) as (m & e & -> & _).
  right. now exists m, e.
Qed.

Lemma freeMbit_shape s :
  freeMbit s = S754_zero false \/ exists m e, freeMbit s = S754_finite false m e.
Proof.
  destruct (Z.eq_dec (wrap64 (netCap s - netUsed s)) 0) as [E|N].
  - left. unfold freeMbit. rewrite E. reflexivity.
  - right. apply freeMbit_positive.
    pose proof (Z.mod_pos_bound (netCap s - netUsed s) (2 ^ 64) ltac:(lia)).
    unfold wrap64 in *. lia.
Qed.

(** ** Strings and their slices *)

Lemma append_nil_r s : (s ++ EmptyString)%string = s.
Proof. induction s as [|c t IH]; simpl; [reflexivity | now rewrite IH]. Qed.

Lemma append_assoc a b c : ((a ++ b) ++ c)%string = (a ++ (b ++ c))%string.
Proof. induction a as [|x a IH]; simpl; [reflexivity | now rewrite IH]. Qed.

Lemma length_append a b :
  String.length (a ++ b)%string = (String.length a + String.length b)%nat.
Proof. induction a as [|x a IH]; simpl; [reflexivity | now rewrite IH]. Qed.

Lemma list_ascii_of_append a b :
  list_ascii_of_string (a ++ b)%string
  = list_ascii_of_string a ++ list_ascii_of_string b.
Proof. induction a as [|x a IH]; simpl; [reflexivity | now rewrite IH]. Qed.

Lemma from_append a b : from (String.length a) (a ++ b)%string = b.
Proof. induction a as [|x a IH]; simpl; [now destruct b | exact IH]. Qed.

Lemma upto_append a b : upto (String.length a) (a ++ b)%string = a.
Proof. induction a as [|x a IH]; simpl; [now destruct b | now rewrite IH]. Qed.

(** ** [strings.TrimSpace] on ASCII white space *)

Lemma trimSpace_start_pad l : forall rest k,
  allSpace l = true ->
  (forall c t, rest = String c t -> solid c = true) ->
  strings.trimSpace_start (l ++ rest)%string k
  = (k + Z.of_nat (String.length l), false).
Proof.
  induction l as [|c l IH]; intros rest k Hl Hrest.
  - simpl. rewrite Z.add_0_r. destruct rest as [|c t]; [reflexivity|].
    specialize (Hrest c t eq_refl). unfold solid in Hrest.
    apply andb_true_iff in Hrest as [H1 H2]. simpl.
    destruct (byte_of c >=? utf8.RuneSelf) eqn:E; [lia|].
    apply negb_true_iff in H2. now rewrite H2.
  - simpl in Hl. apply andb_true_iff in Hl as [Hc Hl].
    cbn [String.append strings.trimSpace_start String.length].
    assert (Ha : (byte_of c >=? utf8.RuneSelf) = false).
    { unfold strings.asciiSpace, utf8.RuneSelf in *. lia. }
    rewrite Ha, Hc, (IH rest (k + 1) Hl Hrest). f_equal. lia.
Qed.

Lemma trimSpace_stop_pad r : forall back k,
  Forall (fun c => strings.asciiSpace (byte_of c) = true) r ->
  (forall c t, back = c :: t -> solid c = true) ->
  strings.trimSpace_stop (r ++ back) k = (k - Z.of_nat (List.length r), false).
Proof.
  induction r as [|c r IH]; intros back k Hr Hback.
  - simpl. rewrite Z.sub_0_r. destruct back as [|c t]; [reflexivity|].
    specialize (Hback c t eq_refl). unfold solid in Hback.
    apply andb_true_iff in Hback as [H1 H2]. simpl.
    destruct (byte_of c >=? utf8.RuneSelf) eqn:E; [lia|].
    apply negb_true_iff in H2. now rewrite H2.
  - inversion Hr as [|? ? Hc Hr']; subst.
    cbn [app strings.trimSpace_stop List.length].
    assert (Ha : (byte_of c >=? utf8.RuneSelf) = false).
    { unfold strings.asciiSpace, utf8.RuneSelf in *. lia. }
    rewrite Ha, Hc, (IH back (k - 1) Hr' Hback). f_equal. lia.
Qed.

Lemma allSpace_Forall s :
  allSpace s = true ->
  Forall (fun c => strings.asciiSpace (byte_of c) = true)
         (rev (list_ascii_of_string s)).
Proof.
  intros H. apply Forall_rev.
  induction s as [|c t IH]; simpl in *; [constructor|].
  apply andb_true_iff in H as [Hc Ht]. constructor; auto.
Qed.

(** White space around a tight string is what [TrimSpace] removes. *)
Lemma TrimSpace_padded l c r :
  allSpace l = true -> allSpace r = true -> tight c ->
  strings.TrimSpace (l ++ c ++ r)%string = c.
Proof.
  intros Hl Hr [(c0 & t0 & Hc0 & Hs0) (c1 & t1 & Hc1 & Hs1)].
  unfold strings.TrimSpace.
  rewrite (trimSpace_start_pad l (c ++ r)%string 0 Hl)
    by (intros x t Hx; rewrite Hc0 in Hx; simpl in Hx; now injection Hx as <- _).
  rewrite Z.add_0_l, Nat2Z.id, from_append.
  rewrite list_ascii_of_append, rev_app_distr.
  rewrite (trimSpace_stop_pad _ _ _ (allSpace_Forall r Hr))
    by (intros x t Hx; rewrite Hc1 in Hx; now injection Hx as <- _).
  unfold slice, len.
  rewrite length_rev.
  assert (Hlen : List.length (list_ascii_of_string r) = String.length r).
  { clear. induction r as [|x r IH]; simpl; [reflexivity | now rewrite IH]. }
  rewrite Hlen, !length_append.
  replace (Z.to_nat (Z.of_nat (String.length l + (String.length c + String.length r))
                     - Z.of_nat (String.length r) - Z.of_nat (String.length l)))
    with (String.length c) by lia.
  rewrite Nat2Z.id, from_append. apply upto_append.
Qed.

(** ** [strings.Split] on joined segments *)

Lemma Count_append a b sep :
  strings.Count (a ++ b)%string sep
  = (strings.Count a sep + strings.Count b sep)%nat.
Proof.
  induction a as [|x a IH]; simpl; [reflexivity|].
  destruct (Ascii.eqb x sep); simpl; now rewrite IH.
Qed.

Lemma IndexByte_append a b sep :
  strings.Count a sep = O ->
  strings.IndexByte (a ++ String sep b)%string sep = Z.of_nat (String.length a).
Proof.
  induction a as [|x a IH]; intros Hc; simpl.
  - now rewrite Ascii.eqb_refl.
  - simpl in Hc. destruct (Ascii.eqb x sep); [discriminate|].
    rewrite (IH Hc).
    destruct (Z.of_nat (String.length a) <? 0) eqn:E; lia.
Qed.

Lemma Split_single s sep : strings.Count s sep = O -> strings.Split s sep = [s].
Proof. unfold strings.Split. now intros ->. Qed.

Lemma Split_append a b sep :
  strings.Count a sep = O ->
  strings.Split (a ++ String sep b)%string sep = a :: strings.Split b sep.
Proof.
  intros Hc. unfold strings.Split.
  rewrite Count_append, Hc. simpl. rewrite Ascii.eqb_refl.
  cbn [strings.genSplit]. rewrite (IndexByte_append a b sep Hc).
  destruct (Z.of_nat (String.length a) <? 0) eqn:E;
    [apply Z.ltb_lt in E; lia|].
  rewrite Nat2Z.id, upto_append.
  replace (Z.to_nat (Z.of_nat (String.length a) + 1))
    with (String.length (a ++ String sep EmptyString)%string)
    by (rewrite length_append; cbn [String.length]; lia).
  replace (a ++ String sep b)%string
    with ((a ++ String sep EmptyString) ++ b)%string
    by (now rewrite append_assoc).
  now rewrite from_append.
Qed.

(** ** Lines of numerals *)

Lemma allSpace_no_comma s : allSpace s = true -> strings.Count s "," = O.
Proof.
  induction s as [|c t IH]; simpl; [reflexivity|].
  intros H. apply andb_true_iff in H as [Hc Ht].
  destruct (Ascii.eqb c ",") eqn:E; [|auto].
  apply Ascii.eqb_eq in E. subst c. discriminate.
Qed.

Lemma allDigits_no_comma s : allDigits s = true -> strings.Count s "," = O.
Proof.
  induction s as [|c t IH]; simpl; [reflexivity|].
  intros H. apply andb_true_iff in H as [Hc Ht].
  destruct (Ascii.eqb c ",") eqn:E; [|auto].
  apply Ascii.eqb_eq in E. subst c. discriminate.
Qed.

Lemma isDigit_solid c : isDigit c = true -> solid c = true.
Proof.
  unfold isDigit, solid, strings.asciiSpace, utf8.RuneSelf. intros H.
  apply andb_true_iff in H as [H1 H2].
  apply andb_true_iff. split; [lia|]. apply negb_true_iff. lia.
Qed.

Lemma allDigits_last s c t :
  allDigits s = true -> rev (list_ascii_of_string s) = c :: t ->
  isDigit c = true.
Proof.
  intros Hd Hr.
  assert (Hin : In c (list_ascii_of_string s))
    by (apply in_rev; rewrite Hr; now left).
  clear Hr. induction s as [|x s IH]; simpl in *; [contradiction|].
  apply andb_true_iff in Hd as [Hx Hs].
  destruct Hin as [<-|Hin]; auto.
Qed.

Lemma numeral_tight f : numeral f = true -> tight f.
Proof.
  intros H. destruct f as [|c t]; [discriminate|]. simpl in H.
  split.
  - exists c, t. split; [reflexivity|]. apply isDigit_solid.
    now apply andb_true_iff in H as [H _].
  - destruct (rev (list_ascii_of_string (String c t))) as [|x r] eqn:E.
    + apply (f_equal (@List.length ascii)) in E. rewrite length_rev in E.
      discriminate.
    + exists x, r. split; [reflexivity|]. apply isDigit_solid.
      now apply (allDigits_last (String c t) x r).
Qed.

(** The last byte of a line of numerals is a digit. *)
Lemma moreFields_last rest : forall f,
  numeral f = true -> Forall goodRest rest ->
  exists c t,
    rev (list_ascii_of_string (f ++ moreFields rest)%string) = c :: t
    /\ solid c = true.
Proof.
  induction rest as [|[[a b] f'] rest IH]; intros f Hf Hrest.
  - simpl. rewrite append_nil_r. now apply numeral_tight.
  - inversion Hrest as [|? ? Hg Hrest']; subst.
    cbn in Hg. destruct Hg as (Ha & Hb & Hf' & _).
    destruct (IH f' Hf' Hrest') as (c & t & Hr & Hs).
    cbn [moreFields].
    replace (f ++ a ++ String "," (b ++ f' ++ moreFields rest))%string
      with ((f ++ a ++ String "," b) ++ (f' ++ moreFields rest))%string
      by (rewrite !append_assoc; reflexivity).
    rewrite list_ascii_of_append, rev_app_distr, Hr. simpl.
    now exists c, (t ++ rev (list_ascii_of_string (f ++ a ++ String "," b)%string)).
Qed.

(** The fields of a line of numerals, after [Split] and [TrimSpace]. *)
Lemma moreFields_split rest : forall b f,
  allSpace b = true -> numeral f = true -> Forall goodRest rest ->
  map strings.TrimSpace
      (strings.Split (b ++ f ++ moreFields rest)%string ",")
  = f :: map fieldOf rest.
Proof.
  induction rest as [|[[a b'] f'] rest IH]; intros b f Hb Hf Hrest.
  - simpl. rewrite Split_single.
    + simpl. f_equal.
      apply (TrimSpace_padded b f EmptyString Hb eq_refl (numeral_tight f Hf)).
    + rewrite !Count_append, (allSpace_no_comma b Hb). simpl.
      destruct f; [discriminate|]. now rewrite (allDigits_no_comma _ Hf).
  - inversion Hrest as [|? ? Hg Hrest']; subst.
    cbn in Hg. destruct Hg as (Ha & Hb' & Hf' & _).
    cbn [moreFields].
    replace (b ++ f ++ a ++ String "," (b' ++ f' ++ moreFields rest))%string
      with ((b ++ f ++ a) ++ String "," (b' ++ f' ++ moreFields rest))%string
      by (now rewrite !append_assoc).
    rewrite Split_append.
    + cbn [map]. rewrite (IH b' f' Hb' Hf' Hrest'). f_equal.
      apply (TrimSpace_padded b f a Hb Ha (numeral_tight f Hf)).
    + rewrite !Count_append, (allSpace_no_comma b Hb), (allSpace_no_comma a Ha).
      destruct f; [discriminate|]. now rewrite (allDigits_no_comma _ Hf).
Qed.

Lemma lineOf_parts lead f0 rest trail :
  allSpace lead = true -> allSpace trail = true ->
  numeral f0 = true -> Forall goodRest rest ->
  parts_of (lineOf lead f0 rest trail) = f0 :: map fieldOf rest.
Proof.
  intros Hl Ht Hf Hrest. unfold parts_of, lineOf.
  replace (lead ++ f0 ++ moreFields rest ++ trail)%string
    with (lead ++ (f0 ++ moreFields rest) ++ trail)%string
    by (now rewrite !append_assoc).
  rewrite TrimSpace_padded; try assumption.
  - rewrite splitCSV_map.
    apply (moreFields_split rest EmptyString f0 eq_refl Hf Hrest).
  - split; [|now apply moreFields_last].
    destruct f0 as [|c t]; [discriminate|].
    exists c, (t ++ moreFields rest)%string. split; [reflexivity|].
    apply isDigit_solid. simpl in Hf.
    now apply andb_true_iff in Hf as [H _].
Qed.

Lemma accepted_parse f :
  accepted f -> strconv.ParseUint f = (value f, None).
Proof.
  intros [Hn Hv]. rewrite (ParseUint_numeral f Hn).
  destruct (value f <=? maxUint64) eqn:E; [reflexivity|].
  apply Z.leb_gt in E. lia.
Qed.

Lemma accepted_not_failed fs :
  Forall accepted fs -> filter failed fs = [].
Proof.
  induction 1 as [|f fs Hf _ IH]; simpl; [reflexivity|].
  unfold failed at 1. now rewrite (accepted_parse f Hf).
Qed.

(** ** Commas and the bytes of a rune *)

Lemma upto_from s n : (upto n s ++ from n s)%string = s.
Proof.
  revert s; induction n as [|n IH]; intros s; [reflexivity|].
  destruct s as [|c t]; simpl; [reflexivity | now rewrite IH].
Qed.

Lemma Count_upto_from s n sep :
  strings.Count s sep
  = (strings.Count (upto n s) sep + strings.Count (from n s) sep)%nat.
Proof. now rewrite <- Count_append, upto_from. Qed.

Lemma from_from s m n : from m (from n s) = from (n + m) s.
Proof.
  revert s; induction n as [|n IH]; intros s; [reflexivity|].
  destruct s as [|c t]; simpl; [now destruct m | apply IH].
Qed.

Lemma Count_from_le s n sep :
  (strings.Count (from n s) sep <= strings.Count s sep)%nat.
Proof. rewrite (Count_upto_from s n sep). lia. Qed.

(** The width of the rune at the start of a string: one byte, which is the
    rune when it is ASCII, or two to four bytes that are not ASCII. *)
Lemma DecodeRuneInString_width c t :
  let '(r, size) := utf8.DecodeRuneInString (String c t) in
  (size = 1 /\ (byte_of c < 128 -> r = byte_of c))
  \/ (2 <= size <= 4 /\ highPrefix (Z.to_nat size) (String c t) = true).
Proof.
  unfold utf8.DecodeRuneInString, utf8.first, utf8.cont, utf8.RuneSelf,
         utf8.RuneError, utf8.locb, utf8.hicb.
  destruct (byte_of c <? 194) eqn:E0.
  { destruct (byte_of c <? 128) eqn:E1; left; split; auto; lia. }
  assert (H0 : (128 <=? byte_of c) = true) by lia.
  assert (Hhigh : forall x lo hi, 128 <= lo ->
            (x <? lo) || (hi <? x) = false -> (128 <=? x) = true)
    by (intros; lia).
  assert (Hcont : forall x, negb ((128 <=? x) && (x <=? 191)) = false ->
            (128 <=? x) = true) by (intros; lia).
  repeat match goal with
  | |- context [if ?b then _ else _] =>
      match b with
      | context [byte_of c] => destruct b eqn:?
      end
  end;
  repeat match goal with
  | |- context [if ?b then _ else _] => destruct b eqn:?
  | |- context [match ?x with EmptyString => _ | String _ _ => _ end] =>
      destruct x
  end;
  try (left; split; [reflexivity | lia]);
  right; (split; [lia|]);
  change (Z.to_nat 2) with 2%nat; change (Z.to_nat 3) with 3%nat;
  change (Z.to_nat 4) with 4%nat; cbn [highPrefix]; rewrite H0;
  repeat match goal with
  | H : (?x <? ?lo) || (?hi <? ?x) = false |- _ =>
      rewrite (Hhigh x lo hi ltac:(lia) H); clear H
  | H : negb ((128 <=? ?x) && (?x <=? 191)) = false |- _ =>
      rewrite (Hcont x H); clear H
  end; reflexivity.
Qed.

(** A byte that is not ASCII, or that is a white space rune, is no comma. *)
Lemma not_comma_high c : (128 <=? byte_of c) = true -> Ascii.eqb c "," = false.
Proof.
  intros H. destruct (Ascii.eqb c ",") eqn:E; [|reflexivity].
  apply Ascii.eqb_eq in E. subst c. discriminate.
Qed.

Lemma not_comma_space c :
  unicode.IsSpace (byte_of c) = true -> Ascii.eqb c "," = false.
Proof.
  intros H. destruct (Ascii.eqb c ",") eqn:E; [|reflexivity].
  apply Ascii.eqb_eq in E. subst c. discriminate.
Qed.

(** [indexFunc(s, IsSpace, false)] stops at or before the first comma. *)
Lemma indexFunc_range_spec s : forall skip i,
  highPrefix skip s = true ->
  let j := strings.indexFunc_range s skip i unicode.IsSpace false in
  (j = -1 /\ strings.Count s "," = O)
  \/ (i <= j
      /\ strings.Count (from (Z.to_nat (j - i)) s) "," = strings.Count s ",").
Proof.
  induction s as [|c t IH]; intros skip i Hs; [now left|].
  cbn [strings.indexFunc_range].
  destruct skip as [|k].
  - pose proof (DecodeRuneInString_width c t) as Hw.
    destruct (utf8.DecodeRuneInString (String c t)) as [r size].
    destruct (Bool.eqb (unicode.IsSpace r) false) eqn:Ef.
    + right. split; [lia|]. now rewrite Z.sub_diag.
    + assert (Hsp : unicode.IsSpace r = true)
        by (destruct (unicode.IsSpace r); [reflexivity | discriminate]).
      assert (Hc : Ascii.eqb c "," = false /\
                   highPrefix (Z.to_nat size - 1) t = true).
      { destruct Hw as [[-> Hr]|[Hsz Hh]].
        - split; [|reflexivity].
          destruct (128 <=? byte_of c) eqn:E; [now apply not_comma_high|].
          apply not_comma_space. rewrite <- Hr by lia. exact Hsp.
        - destruct (Z.to_nat size) as [|n] eqn:En; [lia|].
          cbn [highPrefix] in Hh. apply andb_true_iff in Hh as [Hc Ht].
          split; [now apply not_comma_high|].
          now replace (S n - 1)%nat with n by lia. }
      destruct Hc as [Hc Hh].
      specialize (IH (Z.to_nat size - 1)%nat (i + 1) Hh). cbn zeta in IH.
      cbn [strings.Count]. rewrite Hc.
      destruct IH as [[Hj Hn]|[Hj Hn]]; [left; now split | right].
      split; [lia|].
      replace (Z.to_nat (strings.indexFunc_range t (Z.to_nat size - 1) (i + 1)
                           unicode.IsSpace false - i))
        with (S (Z.to_nat (strings.indexFunc_range t (Z.to_nat size - 1) (i + 1)
                             unicode.IsSpace false - (i + 1)))) by lia.
      exact Hn.
  - cbn [highPrefix] in Hs. apply andb_true_iff in Hs as [Hc Hh].
    specialize (IH k (i + 1) Hh). cbn zeta in IH.
    cbn [strings.Count]. rewrite (not_comma_high c Hc).
    destruct IH as [[Hj Hn]|[Hj Hn]]; [left; now split | right].
    split; [lia|].
    replace (Z.to_nat (strings.indexFunc_range t k (i + 1)
                         unicode.IsSpace false - i))
      with (S (Z.to_nat (strings.indexFunc_range t k (i + 1)
                           unicode.IsSpace false - (i + 1)))) by lia.
    exact Hn.
Qed.

Lemma TrimLeftFunc_Count s :
  strings.Count (strings.TrimLeftFunc s unicode.IsSpace) ","
  = strings.Count s ",".
Proof.
  unfold strings.TrimLeftFunc, strings.indexFunc.
  pose proof (indexFunc_range_spec s 0 0 eq_refl) as H. cbn zeta in H.
  destruct H as [[Hj Hn]|[Hj Hn]].
  - rewrite Hj. simpl. now rewrite Hn.
  - destruct (strings.indexFunc_range s 0 0 unicode.IsSpace false =? -1) eqn:E;
      [lia|].
    now rewrite Z.sub_0_r in Hn.
Qed.

(** ** From the end of a string *)

Lemma back_snoc y c : back (y ++ String c EmptyString)%string = c :: back y.
Proof. unfold back. now rewrite list_ascii_of_append, rev_app_distr. Qed.

Lemma back_inv p c l :
  back p = c :: l ->
  exists y, p = (y ++ String c EmptyString)%string /\ back y = l.
Proof.
  unfold back. intros H.
  exists (string_of_list_ascii (rev l)). split.
  - rewrite <- (string_of_list_ascii_of_string p).
    rewrite <- (rev_involutive (list_ascii_of_string p)), H. simpl.
    generalize (rev l). clear. intros l.
    induction l as [|x l IH]; simpl; [reflexivity | now rewrite IH].
  - now rewrite list_ascii_of_string_of_list_ascii, rev_involutive.
Qed.

(** A string ends with [n] bytes that are no commas when its last [n] bytes
    satisfy a test that the comma fails. *)
Lemma suffix_no_comma P :
  (forall c, P c = true -> Ascii.eqb c "," = false) ->
  forall n p, prefixAll P n (back p) = true ->
  exists y z,
    p = (y ++ z)%string /\ String.length z = n /\ strings.Count z "," = O.
Proof.
  intros HP. induction n as [|n IH]; intros p H.
  - exists p, EmptyString. now rewrite append_nil_r.
  - cbn [prefixAll] in H. destruct (back p) as [|c l] eqn:E; [discriminate|].
    apply andb_true_iff in H as [Hc Hl].
    destruct (back_inv p c l E) as (y & -> & Hy).
    rewrite <- Hy in Hl. destruct (IH y Hl) as (y' & z & -> & Hz & Hn).
    exists y', (z ++ String c EmptyString)%string.
    split; [now rewrite append_assoc|].
    split; [rewrite length_append; simpl; lia|].
    rewrite Count_append, Hn. simpl. now rewrite (HP c Hc).
Qed.

Lemma high_not_comma c : high c = true -> Ascii.eqb c "," = false.
Proof. apply not_comma_high. Qed.

Lemma space_not_comma c : space c = true -> Ascii.eqb c "," = false.
Proof.
  intros H. destruct (Ascii.eqb c ",") eqn:E; [|reflexivity].
  apply Ascii.eqb_eq in E. subst c. discriminate.
Qed.

Lemma upto_all x n : (String.length x <= n)%nat -> upto n x = x.
Proof.
  revert n; induction x as [|c x IH]; intros n H; [now destruct n|].
  destruct n as [|n]; simpl in *; [lia|]. rewrite IH by lia. reflexivity.
Qed.

Lemma from_all x n : (String.length x <= n)%nat -> from n x = EmptyString.
Proof.
  revert n; induction x as [|c x IH]; intros n H; [now destruct n|].
  destruct n as [|n]; simpl in *; [lia|]. apply IH. lia.
Qed.

Lemma length_from x n :
  String.length (from n x) = (String.length x - n)%nat.
Proof.
  revert x; induction n as [|n IH]; intros x; simpl; [lia|].
  destruct x as [|c x]; simpl; [reflexivity | apply IH].
Qed.

Lemma length_upto x n :
  String.length (upto n x) = Nat.min n (String.length x).
Proof.
  revert x; induction n as [|n IH]; intros x; simpl; [reflexivity|].
  destruct x as [|c x]; simpl; [reflexivity | now rewrite IH].
Qed.

Lemma from_app_le a b n :
  (n <= String.length a)%nat -> from n (a ++ b)%string = (from n a ++ b)%string.
Proof.
  revert a; induction n as [|n IH]; intros a H; [reflexivity|].
  destruct a as [|c a]; simpl in *; [lia|]. apply IH. lia.
Qed.

(** Cutting such an end off, or going into it, meets no comma. *)
Lemma suffix_cut P n p :
  (forall c, P c = true -> Ascii.eqb c "," = false) ->
  prefixAll P n (back p) = true ->
  (n <= String.length p)%nat
  /\ strings.Count (upto (String.length p - n) p) "," = strings.Count p ","
  /\ forall m, (m <= n)%nat ->
       strings.Count (from (String.length p - m) p) "," = O.
Proof.
  intros HP H.
  destruct (suffix_no_comma P HP n p H) as (y & z & -> & Hz & Hn).
  rewrite length_append, Hz.
  split; [lia|]. split.
  - replace (String.length y + n - n)%nat with (String.length y) by lia.
    rewrite upto_append, Count_append, Hn. lia.
  - intros m Hm.
    replace (String.length y + n - m)%nat
      with (String.length y + (n - m))%nat by lia.
    rewrite <- from_from, from_append.
    pose proof (Count_from_le z (n - m) ","). lia.
Qed.

Lemma get_last y c :
  String.get (String.length y) (y ++ String c EmptyString)%string = Some c.
Proof. induction y as [|x y IH]; simpl; [reflexivity | exact IH]. Qed.

(** All the bytes of a string of [n] bytes that are not ASCII. *)
Lemma highPrefix_all n x :
  highPrefix n x = true -> String.length x = n ->
  forallb high (list_ascii_of_string x) = true.
Proof.
  revert x; induction n as [|n IH]; intros x H Hl.
  - now destruct x.
  - destruct x as [|c x]; [discriminate|].
    cbn [highPrefix] in H. apply andb_true_iff in H as [Hc Hx].
    simpl in Hl. injection Hl as Hl. simpl.
    unfold high at 1. rewrite Hc. simpl. now apply IH.
Qed.

Lemma prefixAll_forallb P l l' :
  forallb P l = true -> prefixAll P (List.length l) (l ++ l') = true.
Proof.
  induction l as [|c l IH]; simpl; [reflexivity|].
  intros H. apply andb_true_iff in H as [Hc Hl]. now rewrite Hc, IH.
Qed.

Lemma length_list_ascii x :
  List.length (list_ascii_of_string x) = String.length x.
Proof. induction x as [|c x IH]; simpl; [reflexivity | now rewrite IH]. Qed.

Lemma highPrefix_back n x y :
  highPrefix n x = true -> String.length x = n ->
  prefixAll high n (back (y ++ x)%string) = true.
Proof.
  intros H Hl. unfold back. rewrite list_ascii_of_append, rev_app_distr.
  rewrite <- Hl, <- length_list_ascii, <- length_rev.
  apply prefixAll_forallb.
  apply forallb_forall. intros c Hc. apply in_rev in Hc.
  pose proof (highPrefix_all n x H Hl) as Ha.
  rewrite forallb_forall in Ha. now apply Ha.
Qed.

Lemma scanBack_le s n : forall start lim, utf8.scanBack s n start lim <= start.
Proof.
  induction n as [|n IH]; intros start lim; simpl; [lia|].
  destruct (start <? lim); [lia|].
  destruct (String.get (Z.to_nat start) s) as [c|]; [|lia].
  destruct (utf8.RuneStart (byte_of c)); [lia|].
  specialize (IH (start - 1) lim). lia.
Qed.

(** The width of the last rune: one byte, or all its bytes are not ASCII. *)
Lemma DecodeLastRuneInString_width y c :
  let p := (y ++ String c EmptyString)%string in
  let '(r, size) := utf8.DecodeLastRuneInString p in
  (size = 1 /\ (byte_of c < 128 -> r = byte_of c))
  \/ (2 <= size <= 4 /\ prefixAll high (Z.to_nat size) (back p) = true).
Proof.
  intros p. unfold utf8.DecodeLastRuneInString.
  assert (Hlen : len p = Z.of_nat (String.length y) + 1).
  { unfold len, p. rewrite length_append. simpl. lia. }
  rewrite Hlen.
  destruct (Z.of_nat (String.length y) + 1 =? 0) eqn:E0; [lia|]. clear E0.
  replace (Z.to_nat (Z.of_nat (String.length y) + 1 - 1))
    with (String.length y) by lia.
  unfold p at 1. rewrite get_last.
  unfold utf8.RuneSelf, utf8.UTFMax.
  destruct (byte_of c <? 128) eqn:Ec; [left; split; auto|].
  set (e := Z.of_nat (String.length y) + 1).
  pose proof (scanBack_le p 4 (e - 1 - 1) (Z.max 0 (e - 4))) as Hsb.
  set (start0 := utf8.scanBack p 4 (e - 1 - 1) (Z.max 0 (e - 4))) in *.
  set (start := if start0 <? 0 then 0 else start0).
  assert (Hstart : 0 <= start < e).
  { unfold start, e in *. destruct (start0 <? 0) eqn:E; lia. }
  assert (Hsl : slice start e p = from (Z.to_nat start) p).
  { unfold slice. apply upto_all. rewrite length_from.
    unfold len in Hlen. lia. }
  rewrite Hsl.
  assert (Hx : String.length (from (Z.to_nat start) p) = Z.to_nat (e - start)).
  { rewrite length_from. unfold len in Hlen. lia. }
  pose proof (upto_from p (Z.to_nat start)) as Hp.
  destruct (from (Z.to_nat start) p) as [|c' t'] eqn:Ex.
  { simpl in Hx. lia. }
  pose proof (DecodeRuneInString_width c' t') as Hw.
  destruct (utf8.DecodeRuneInString (String c' t')) as [r size].
  destruct (negb (start + size =? e)) eqn:Ee.
  { left. split; [reflexivity | lia]. }
  assert (Hsz : size = e - start) by lia.
  destruct Hw as [[H1 _]|[H2 Hh]].
  - left. split; [exact H1 | lia].
  - right. split; [exact H2|].
    rewrite <- Hp. apply highPrefix_back; [exact Hh|].
    rewrite Hx, Hsz. reflexivity.
Qed.

Lemma upto_S s i c :
  String.get i s = Some c ->
  upto (S i) s = (upto i s ++ String c EmptyString)%string.
Proof.
  revert s; induction i as [|i IH]; intros s H.
  - destruct s as [|a s]; [discriminate|]. simpl in H. injection H as ->.
    reflexivity.
  - destruct s as [|a s]; [discriminate|]. simpl in H.
    change (upto (S (S i)) (String a s)) with (String a (upto (S i) s)).
    rewrite (IH s H). reflexivity.
Qed.

Lemma get_some s i :
  (i < String.length s)%nat -> exists c, String.get i s = Some c.
Proof.
  revert s; induction i as [|i IH]; intros s H.
  - destruct s as [|a s]; [simpl in H; lia|]. now exists a.
  - destruct s as [|a s]; [simpl in H; lia|]. simpl in *. apply IH. lia.
Qed.

(** [lastIndexFunc] looking for a rune that is no space: every byte after
    the one it stops at is no comma. *)
Lemma lastIndexFunc_loop_spec s : forall i skip,
  (i <= String.length s)%nat ->
  prefixAll high skip (back (upto i s)) = true ->
  let j := strings.lastIndexFunc_loop s i skip unicode.IsSpace false in
  (j = -1 /\ strings.Count (upto i s) "," = O)
  \/ (0 <= j < Z.of_nat i
      /\ strings.Count (from (Z.to_nat j + 1) (upto i s)) "," = O).
Proof.
  induction i as [|i IH]; intros skip Hi Hs; [now left|].
  destruct (get_some s i ltac:(lia)) as (c & Hc).
  rewrite (upto_S s i c Hc) in *. rewrite back_snoc in Hs.
  assert (Hli : String.length (upto i s) = i)
    by (rewrite length_upto; lia).
  (* what one step back gives, once the byte passed is known not to be a
     comma *)
  assert (Hstep : forall k, Ascii.eqb c "," = false ->
            prefixAll high k (back (upto i s)) = true ->
            let j := strings.lastIndexFunc_loop s i k unicode.IsSpace false in
            (j = -1 /\ strings.Count (upto i s ++ String c EmptyString)%string "," = O)
            \/ (0 <= j < Z.of_nat (S i)
                /\ strings.Count
                     (from (Z.to_nat j + 1)
                           (upto i s ++ String c EmptyString)%string) "," = O)).
  { intros k Hcc Hk. specialize (IH k ltac:(lia) Hk). cbn zeta in IH |- *.
    destruct IH as [[Hj Hn]|[Hj Hn]].
    - left. split; [exact Hj|]. rewrite Count_append, Hn. simpl.
      now rewrite Hcc.
    - right. split; [lia|].
      rewrite from_app_le by lia. rewrite Count_append, Hn. simpl.
      now rewrite Hcc. }
  cbn [strings.lastIndexFunc_loop]. cbn zeta.
  destruct skip as [|k].
  - rewrite (upto_S s i c Hc).
    pose proof (DecodeLastRuneInString_width (upto i s) c) as Hw.
    cbn zeta in Hw.
    destruct (utf8.DecodeLastRuneInString
                (upto i s ++ String c EmptyString)%string) as [r size].
    rewrite back_snoc in Hw.
    destruct (Bool.eqb (unicode.IsSpace r) false) eqn:Ef.
    + right. destruct Hw as [[-> _]|[Hsz Hh]].
      * split; [lia|].
        rewrite from_all; [reflexivity|].
        rewrite length_append, Hli. cbn [String.length]. lia.
      * rewrite <- back_snoc in Hh.
        destruct (suffix_cut high _ _ high_not_comma Hh) as (Hle & _ & Hm).
        rewrite length_append, Hli in Hle, Hm.
        cbn [String.length] in Hle, Hm.
        split; [lia|].
        specialize (Hm (Z.to_nat size - 1)%nat ltac:(lia)).
        replace (Z.to_nat (Z.of_nat (S i) - size) + 1)%nat
          with (i + 1 - (Z.to_nat size - 1))%nat by lia.
        exact Hm.
    + assert (Hsp : unicode.IsSpace r = true)
        by (destruct (unicode.IsSpace r); [reflexivity | discriminate]).
      apply Hstep.
      * destruct Hw as [[-> Hr]|[Hsz Hh]].
        -- destruct (128 <=? byte_of c) eqn:E; [now apply not_comma_high|].
           apply not_comma_space. rewrite <- Hr by lia. exact Hsp.
        -- destruct (Z.to_nat size) as [|n] eqn:En; [lia|].
           cbn [prefixAll] in Hh. apply andb_true_iff in Hh as [Hh _].
           now apply high_not_comma.
      * destruct Hw as [[-> Hr]|[Hsz Hh]]; [reflexivity|].
        destruct (Z.to_nat size) as [|n] eqn:En; [lia|].
        cbn [prefixAll] in Hh. apply andb_true_iff in Hh as [_ Hh].
        now replace (S n - 1)%nat with n by lia.
  - cbn [prefixAll] in Hs. apply andb_true_iff in Hs as [Hh Hk].
    apply Hstep; [now apply high_not_comma | exact Hk].
Qed.

Lemma TrimRightFunc_Count s :
  strings.Count (strings.TrimRightFunc s unicode.IsSpace) ","
  = strings.Count s ",".
Proof.
  unfold strings.TrimRightFunc, strings.lastIndexFunc.
  pose proof (lastIndexFunc_loop_spec s (String.length s) 0 (le_n _) eq_refl)
    as H. cbn zeta in H. rewrite upto_all in H by lia.
  set (j := strings.lastIndexFunc_loop s (String.length s) 0
              unicode.IsSpace false) in *.
  destruct H as [[Hj Hn]|[Hj Hn]].
  - rewrite Hj. simpl. now rewrite Hn.
  - set (k := if (j >=? 0) && _ then _ else _).
    assert (Hk : j + 1 <= k).
    { unfold k. destruct ((j >=? 0) && _); [|lia].
      destruct (from (Z.to_nat j) s) as [|c t] eqn:Ef.
      { apply (f_equal String.length) in Ef. rewrite length_from in Ef.
        simpl in Ef. lia. }
      pose proof (DecodeRuneInString_width c t) as Hw.
      destruct (utf8.DecodeRuneInString (String c t)) as [r size]. simpl.
      destruct Hw as [[-> _]|[Hsz _]]; lia. }
    pose proof (Count_upto_from s (Z.to_nat k) ",") as Hsplit.
    assert (Hz : strings.Count (from (Z.to_nat k) s) "," = O).
    { replace (Z.to_nat k) with ((Z.to_nat j + 1) + (Z.to_nat k - (Z.to_nat j + 1)))%nat
        by lia.
      rewrite <- from_from.
      pose proof (Count_from_le (from (Z.to_nat j + 1) s)
                    (Z.to_nat k - (Z.to_nat j + 1)) ","). lia. }
    lia.
Qed.

Lemma trimSpace_start_spec : forall rest k,
  exists n : nat,
    fst (strings.trimSpace_start rest k) = k + Z.of_nat n
    /\ (n <= String.length rest)%nat
    /\ strings.Count (from n rest) "," = strings.Count rest ",".
Proof.
  induction rest as [|c t IH]; intros k.
  - exists O. simpl. split; [lia | split; [lia | reflexivity]].
  - cbn [strings.trimSpace_start]. cbn zeta.
    destruct (byte_of c >=? utf8.RuneSelf).
    { exists O. simpl fst. split; [lia | split; [lia | reflexivity]]. }
    destruct (strings.asciiSpace (byte_of c)) eqn:Es.
    + destruct (IH (k + 1)) as (n & Hn & Hle & Hc).
      exists (S n). split; [lia|]. split; [simpl; lia|].
      cbn [from strings.Count]. rewrite (space_not_comma c Es). exact Hc.
    + exists O. simpl fst. split; [lia | split; [lia | reflexivity]].
Qed.

Lemma trimSpace_stop_spec : forall bk k,
  exists n : nat,
    fst (strings.trimSpace_stop bk k) = k - Z.of_nat n
    /\ prefixAll space n bk = true.
Proof.
  induction bk as [|c t IH]; intros k.
  - exists O. simpl. split; [lia | reflexivity].
  - cbn [strings.trimSpace_stop]. cbn zeta.
    destruct (byte_of c >=? utf8.RuneSelf).
    { exists O. simpl fst. split; [lia | reflexivity]. }
    destruct (strings.asciiSpace (byte_of c)) eqn:Es.
    + destruct (IH (k - 1)) as (n & Hn & Hp).
      exists (S n). split; [lia|].
      cbn [prefixAll]. unfold space at 1. now rewrite Es, Hp.
    + exists O. simpl fst. split; [lia | reflexivity].
Qed.

(** [strings.TrimSpace] neither removes nor adds a comma. *)
Lemma TrimSpace_Count s :
  strings.Count (strings.TrimSpace s) "," = strings.Count s ",".
Proof.
  unfold strings.TrimSpace.
  destruct (trimSpace_start_spec s 0) as (n & Hn & Hle & Hc).
  destruct (strings.trimSpace_start s 0) as [start fl]. simpl in Hn.
  assert (Hs : Z.to_nat start = n) by lia. rewrite Hs.
  destruct fl.
  { unfold strings.TrimFunc.
    now rewrite TrimRightFunc_Count, TrimLeftFunc_Count. }
  destruct (trimSpace_stop_spec (rev (list_ascii_of_string (from n s))) (len s))
    as (m & Hm & Hp).
  destruct (strings.trimSpace_stop _ (len s)) as [stop fl2]. simpl in Hm.
  destruct (suffix_cut space m (from n s) space_not_comma Hp) as (Hml & Hcut & _).
  rewrite length_from in Hml, Hcut.
  assert (Hsl : slice start stop s = upto (String.length s - n - m) (from n s)).
  { unfold slice. rewrite Hs. f_equal. unfold len in Hm. lia. }
  rewrite Hsl.
  destruct fl2; [rewrite TrimRightFunc_Count|]; now rewrite Hcut.
Qed.

Lemma Count_before_IndexByte s sep :
  strings.Count (upto (Z.to_nat (strings.IndexByte s sep)) s) sep = O.
Proof.
  induction s as [|ch t IH]; simpl; [reflexivity|].
  destruct (Ascii.eqb ch sep) eqn:E; [reflexivity|].
  pose proof (IndexByte_lower sep t) as Hl.
  destruct (strings.IndexByte t sep <? 0) eqn:L.
  - apply Z.ltb_lt in L.
    replace (Z.to_nat (strings.IndexByte t sep)) with O by lia. reflexivity.
  - apply Z.ltb_ge in L.
    replace (Z.to_nat (strings.IndexByte t sep + 1))
      with (S (Z.to_nat (strings.IndexByte t sep))) by lia.
    simpl. now rewrite E.
Qed.

Lemma genSplit_no_sep sep n : forall s,
  strings.Count s sep = n ->
  Forall (fun p => strings.Count p sep = O) (strings.genSplit n s sep).
Proof.
  induction n as [|n IH]; intros s Hc; simpl.
  - constructor; [exact Hc | constructor].
  - destruct (strings.IndexByte s sep <? 0) eqn:L.
    + apply Z.ltb_lt, IndexByte_neg in L. congruence.
    + apply Z.ltb_ge in L. constructor; [apply Count_before_IndexByte|].
      apply IH. rewrite Count_after_IndexByte by assumption. now rewrite Hc.
Qed.

(** * The claims *)

(** C1, as the code has it. On a line of 7 fields every value of the
    snapshot is the value [ParseUint] returned for its field: 0 for a field
    that fails with a syntax error, and the largest [uint64] for a field that
    fails with a range error; either failure adds one to [errNum]. *)
Theorem failed_field_value body i :
  wellFormed body -> (i < 7)%nat ->
  let p := part (parts_of body) i in
  let s := snapshot_of body in
  field i s = fst (strconv.ParseUint p)
  /\ (snd (strconv.ParseUint p) = Some strconv.ErrSyntax -> field i s = 0)
  /\ (snd (strconv.ParseUint p) = Some strconv.ErrRange ->
      field i s = maxUint64)
  /\ errNum s = Z.of_nat (List.length (filter failed (parts_of body))).
Proof.
  intros Hw Hi p s.
  assert (Hf : field i s = fst (strconv.ParseUint p))
    by (apply parseFields_field; exact Hi).
  pose proof (ParseUint_cases p) as Hc.
  split; [exact Hf|]. rewrite Hf.
  destruct (strconv.ParseUint p) as [v [[]|]]; simpl in *;
    (split; [|split]);
    try (intros; congruence); try (intros; discriminate);
    apply parseFields_errNum; exact Hw.
Qed.

Lemma failed_field_value_witness :
  field 1 (snapshot_of "5,x,0,1000,100,99999999999999999999,50") = 0
  /\ field 5 (snapshot_of "5,x,0,1000,100,99999999999999999999,50")
     = maxUint64
  /\ errNum (snapshot_of "5,x,0,1000,100,99999999999999999999,50") = 2.
Proof.
  split; [|split].
  - apply (failed_field_value "5,x,0,1000,100,99999999999999999999,50" 1);
      [reflexivity | lia | reflexivity].
  - apply (failed_field_value "5,x,0,1000,100,99999999999999999999,50" 5);
      [reflexivity | lia | reflexivity].
  - apply (failed_field_value "5,x,0,1000,100,99999999999999999999,50" 0);
      [reflexivity | lia].
Defined.

(** C1 fails as stated: the first field of this line of 7 fields fails
    numeric interpretation (range error), its value in the snapshot is
    2^64 - 1, not 0, and the load check compares and prints that value. *)
Lemma range_error_field_is_not_zero :
  wellFormed "99999999999999999999,1,0,1,0,1,0"
  /\ failed (part (parts_of "99999999999999999999,1,0,1,0,1,0") 0) = true
  /\ loadAvg (snapshot_of "99999999999999999999,1,0,1,0,1,0")
     = 18446744073709551615
  /\ errNum (snapshot_of "99999999999999999999,1,0,1,0,1,0") = 1
  /\ pollOnce (ok "99999999999999999999,1,0,1,0,1,0") []
     = ([LoadAverageTooHigh 18446744073709551615], inl tt).
Proof. repeat split. Qed.

(** C2. A line whose number of comma-separated, trimmed fields (the empty
    ones counted) is not 7 ends the cycle with the field-number error; nothing
    is printed, and no field is read as a number: the outcome depends on the
    number of commas of the line only. *)
Theorem wrong_field_count_is_structural_error body out :
  List.length (parts_of body) <> 7%nat ->
  pollOnce (ok body) out
    = (out, inr (ErrFieldNumber (Z.of_nat (List.length (parts_of body)))))
  /\ parts_of body
     = map strings.TrimSpace (strings.Split (strings.TrimSpace body) ",")
  /\ List.length (parts_of body)
     = S (strings.Count (strings.TrimSpace body) ",").
Proof.
  intros Hn. split; [|split].
  - rewrite pollOnce_ok, pollBody_eq.
    destruct (Z.of_nat (List.length (parts_of body)) =? 7) eqn:E;
      [apply Z.eqb_eq in E; lia | reflexivity].
  - apply splitCSV_map.
  - apply splitCSV_length.
Qed.

Lemma wrong_field_count_is_structural_error_witness :
  pollOnce (ok "1,,3,4,5,6,7,8") [] = ([], inr (ErrFieldNumber 8)).
Proof.
  apply (wrong_field_count_is_structural_error "1,,3,4,5,6,7,8" []).
  vm_compute. discriminate.
Defined.

(** C3. On a line of 7 fields, more than 3 failed fields end the cycle with
    the too-many-errors error before any check has printed; with 0 to 3
    failed fields the cycle is the four checks on the snapshot, whose
    [errNum] is that number. *)
Theorem unparsable_budget body out :
  wellFormed body ->
  let n := Z.of_nat (List.length (filter failed (parts_of body))) in
  errNum (snapshot_of body) = n
  /\ (n > 3 -> pollOnce (ok body) out = (out, inr ErrTooManyErrors))
  /\ (0 <= n <= 3 ->
      pollOnce (ok body) out = checks (snapshot_of body) out).
Proof.
  intros Hw n.
  assert (He : errNum (snapshot_of body) = n)
    by (apply parseFields_errNum; exact Hw).
  split; [exact He|]. split; intros Hn.
  - rewrite pollOnce_ok, pollBody_eq. unfold wellFormed in Hw. rewrite Hw.
    simpl. rewrite He.
    destruct (n >? 3) eqn:E; [reflexivity | lia].
  - apply pollOnce_usable. split; [exact Hw | lia].
Qed.

Lemma unparsable_budget_witness :
  pollOnce (ok "a,b,c,d,100,1000,50") [] = ([], inr ErrTooManyErrors)
  /\ pollOnce (ok "a,b,c,1000,100,1000,50") []
     = checks (snapshot_of "a,b,c,1000,100,1000,50") []
  /\ errNum (snapshot_of "a,b,c,1000,100,1000,50") = 3.
Proof.
  split; [|split].
  - apply (unparsable_budget "a,b,c,d,100,1000,50" []);
      [reflexivity | vm_compute; reflexivity].
  - apply (unparsable_budget "a,b,c,1000,100,1000,50" []);
      [reflexivity | vm_compute; split; discriminate].
  - apply (unparsable_budget "a,b,c,1000,100,1000,50" []). reflexivity.
Defined.

(** C4. On a usable snapshot a zero denominator ends the cycle with its
    guard error and is never read as a percentage: with [memTotal = 0]
    nothing but the load line can have been printed; with [diskTotal = 0]
    neither the disk line nor the network line is printed; with [netCap = 0]
    the network line is not printed. *)
Theorem zero_denominator_ends_cycle body out :
  usable body ->
  let s := snapshot_of body in
  (memTotal s = 0 ->
     pollOnce (ok body) out = (out ++ loadLine s, inr ErrMemTotal0))
  /\ (diskTotal s = 0 -> memTotal s <> 0 ->
     pollOnce (ok body) out
       = (out ++ loadLine s ++ memLine s, inr ErrDiskTotal0))
  /\ (netCap s = 0 -> memTotal s <> 0 -> diskTotal s <> 0 ->
     pollOnce (ok body) out
       = (out ++ loadLine s ++ memLine s ++ diskLine s, inr ErrNetCap0))
  /\ (memTotal s = 0 \/ diskTotal s = 0 \/ netCap s = 0 ->
     exists new e,
       pollOnce (ok body) out = (out ++ new, inr e)
       /\ (e = ErrMemTotal0 \/ e = ErrDiskTotal0 \/ e = ErrNetCap0)
       /\ (forall p, ~ In (NetworkBandwidthHigh p) new)
       /\ (memTotal s = 0 \/ diskTotal s = 0 ->
           forall v, ~ In (FreeDiskSpaceTooLow v) new)
       /\ (memTotal s = 0 -> forall p, ~ In (MemoryUsageTooHigh p) new)).
Proof.
  intros Hu s.
  assert (Hp : pollOnce (ok body) out = checks s out)
    by (apply pollOnce_usable; exact Hu).
  rewrite Hp.
  repeat split.
  - intros Hm. rewrite checks_eq, Hm. reflexivity.
  - intros Hd Hm. rewrite checks_eq, Hd.
    apply Z.eqb_neq in Hm. now rewrite Hm.
  - intros Hn Hm Hd. rewrite checks_eq, Hn.
    apply Z.eqb_neq in Hm, Hd. now rewrite Hm, Hd.
  - intros Hz.
    destruct (checks s out) as [out' r] eqn:E.
    pose proof (checks_frame s out) as Hf. rewrite E in Hf.
    injection Hf as Ho Hr.
    rewrite Ho in E.
    pose proof (printed_only_if s out _ r E) as (_ & Pm & Pd & Pn).
    assert (Hr' : exists e, r = inr e
              /\ (e = ErrMemTotal0 \/ e = ErrDiskTotal0 \/ e = ErrNetCap0)).
    { rewrite checks_eq in E.
      destruct (memTotal s =? 0) eqn:Em;
      [|destruct (diskTotal s =? 0) eqn:Ed;
        [|destruct (netCap s =? 0) eqn:En]];
      injection E as _ E; rewrite <- E; eauto.
      rewrite ?Z.eqb_neq in *. lia. }
    destruct Hr' as (e & -> & He).
    exists (fst (checks s [])), e. rewrite Ho.
    split; [reflexivity|]. split; [exact He|].
    split; [|split].
    + intros p Hin. apply Pn in Hin. lia.
    + intros Hmd v Hin. apply Pd in Hin. lia.
    + intros Hm p Hin. apply Pm in Hin. lia.
Qed.

Lemma zero_denominator_ends_cycle_witness :
  pollOnce (ok "5,0,0,1000,100,1000,50") [] = ([], inr ErrMemTotal0)
  /\ pollOnce (ok "5,1000,900,0,0,1000,50") []
     = ([MemoryUsageTooHigh (memPct (snapshot_of "5,1000,900,0,0,1000,50"))],
        inr ErrDiskTotal0)
  /\ pollOnce (ok "5,1000,100,1000,100,0,0") [] = ([], inr ErrNetCap0).
Proof.
  split; [|split].
  - apply (zero_denominator_ends_cycle "5,0,0,1000,100,1000,50" []);
      [split; [reflexivity | vm_compute; discriminate] | reflexivity].
  - apply (zero_denominator_ends_cycle "5,1000,900,0,0,1000,50" []);
      [split; [reflexivity | vm_compute; discriminate]
      | reflexivity | vm_compute; discriminate].
  - apply (zero_denominator_ends_cycle "5,1000,100,1000,100,0,0" []);
      [split; [reflexivity | vm_compute; discriminate]
      | reflexivity | vm_compute; discriminate | vm_compute; discriminate].
Defined.

(** C5. The four comparisons are strict: on a usable snapshot a load equal
    to its threshold, or a percentage that compares equal to its threshold,
    prints no line of its check.  On the line of scenario A the disk
    percentage is exactly 90 and the cycle prints nothing and succeeds. *)
Theorem thresholds_are_strict :
  (forall body out new r,
     usable body ->
     pollOnce (ok body) out = (out ++ new, r) ->
     let s := snapshot_of body in
     (loadAvg s = loadAverageThreshold ->
        forall v, ~ In (LoadAverageTooHigh v) new)
     /\ (feq (memPct s) (float64_of_Z memoryUsageThreshold) = true ->
        forall p, ~ In (MemoryUsageTooHigh p) new)
     /\ (feq (diskPct s) (float64_of_Z freeDiscSpaceThreshold) = true ->
        forall v, ~ In (FreeDiskSpaceTooLow v) new)
     /\ (feq (netPct s) (float64_of_Z networkBandwidthThreshold) = true ->
        forall p, ~ In (NetworkBandwidthHigh p) new))
  /\ diskPct (snapshot_of "10,1000,500,1000,900,1000,500")
     = float64_of_Z freeDiscSpaceThreshold
  /\ forall out,
       pollOnce (ok "10,1000,500,1000,900,1000,500") out = (out, inl tt).
Proof.
  split; [|split].
  - intros body out new r Hu Hp s.
    rewrite (pollOnce_usable body out Hu) in Hp.
    pose proof (printed_only_if _ out new r Hp) as (Pl & Pm & Pd & Pn).
    fold s in Pl, Pm, Pd, Pn.
    repeat split.
    + intros He v Hin. apply Pl in Hin. lia.
    + intros He p Hin. apply Pm in Hin as (_ & Hg & _).
      rewrite (feq_not_fgt _ _ He) in Hg. discriminate.
    + intros He v Hin. apply Pd in Hin as (_ & _ & Hg & _).
      rewrite (feq_not_fgt _ _ He) in Hg. discriminate.
    + intros He p Hin. apply Pn in Hin as (_ & _ & _ & Hg & _).
      rewrite (feq_not_fgt _ _ He) in Hg. discriminate.
  - vm_compute. reflexivity.
  - intros out.
    rewrite (pollOnce_usable "10,1000,500,1000,900,1000,500" out)
      by (split; [reflexivity | vm_compute; discriminate]).
    rewrite checks_frame.
    change (fst (checks (snapshot_of "10,1000,500,1000,900,1000,500") []))
      with (@nil printed).
    now rewrite app_nil_r.
Qed.

Lemma thresholds_are_strict_witness :
  pollOnce (ok "30,1000,800,1000,900,1000,900") [] = ([], inl tt)
  /\ forall v, ~ In (LoadAverageTooHigh v) [].
Proof.
  split; [reflexivity|].
  destruct thresholds_are_strict as [H _].
  apply (H "30,1000,800,1000,900,1000,900" [] [] (inl tt));
    [split; [reflexivity | vm_compute; discriminate]
    | reflexivity | reflexivity].
Defined.

(** The equality above is between [float64] values, as the code computes
    them.  Beyond 2^53 the conversions to [float64] round, and a disk that
    is 9/10 full to the byte can compute to a percentage above 90, on which
    the check fires. *)
Example rounded_percentage_above_threshold :
  10 * diskUsed
         (snapshot_of "1,1,0,14977514194560365380,13479762775104328842,1,0")
  = 9 * diskTotal
          (snapshot_of "1,1,0,14977514194560365380,13479762775104328842,1,0")
  /\ fgt (diskPct
            (snapshot_of "1,1,0,14977514194560365380,13479762775104328842,1,0"))
         (float64_of_Z freeDiscSpaceThreshold) = true
  /\ pollOnce (ok "1,1,0,14977514194560365380,13479762775104328842,1,0") []
     = ([FreeDiskSpaceTooLow 1428367061096], inl tt).
Proof. repeat split. Qed.

(** C6, as the code has it. When the disk check fires and [diskUsed] does
    not exceed [diskTotal], the disk line reports
    [(diskTotal - diskUsed) / 1048576] rounded down; on the line of
    scenario C it reports 0, and it is the only line. *)
Theorem disk_alert_reports_whole_megabytes :
  (forall body out,
     usable body ->
     let s := snapshot_of body in
     memTotal s <> 0 -> diskTotal s <> 0 ->
     fgt (diskPct s) (float64_of_Z freeDiscSpaceThreshold) = true ->
     diskUsed s <= diskTotal s ->
     exists pre post r,
       pollOnce (ok body) out
         = (out ++ pre
                ++ [FreeDiskSpaceTooLow ((diskTotal s - diskUsed s) / 1048576)]
                ++ post, r)
       /\ (forall v, ~ In (FreeDiskSpaceTooLow v) pre)
       /\ (forall v, ~ In (FreeDiskSpaceTooLow v) post))
  /\ forall out,
       pollOnce (ok "5,1000,100,1000,950,1000,50") out
         = (out ++ [FreeDiskSpaceTooLow 0], inl tt).
Proof.
  split.
  - intros body out Hu s Hm Hd Hg Hle.
    pose proof (snapshot_range (parts_of body) 3 ltac:(lia)) as Rdt.
    pose proof (snapshot_range (parts_of body) 4 ltac:(lia)) as Rdu.
    simpl in Rdt, Rdu.
    fold (snapshot_of body) in Rdt, Rdu. fold s in Rdt, Rdu.
    assert (Hr : 0 <= diskTotal s - diskUsed s < 2 ^ 63).
    { split; [lia|].
      destruct (Z.lt_ge_cases (diskTotal s - diskUsed s) (2 ^ 63)) as [L|G];
        [exact L|].
      unfold diskPct in Hg.
      rewrite (pct_when_half_free (diskUsed s) (diskTotal s)) in Hg by lia.
      discriminate. }
    rewrite (pollOnce_usable body out Hu). fold s.
    rewrite <- (freeMB_no_underflow s Hr).
    now apply disk_line_printed.
  - intros out.
    rewrite (pollOnce_usable "5,1000,100,1000,950,1000,50" out)
      by (split; [reflexivity | vm_compute; discriminate]).
    rewrite checks_frame. reflexivity.
Qed.

Lemma disk_alert_reports_whole_megabytes_witness :
  exists pre post r,
    pollOnce (ok "1,1,0,104857600,99614721,1,0") []
      = ([] ++ pre ++ [FreeDiskSpaceTooLow 4] ++ post, r)
    /\ (forall v, ~ In (FreeDiskSpaceTooLow v) pre)
    /\ (forall v, ~ In (FreeDiskSpaceTooLow v) post).
Proof.
  destruct disk_alert_reports_whole_megabytes as [H _].
  apply (H "1,1,0,104857600,99614721,1,0" []);
    [split; [reflexivity | vm_compute; discriminate]
    | vm_compute; discriminate | vm_compute; discriminate
    | reflexivity | vm_compute; discriminate].
Defined.

(** C6 fails as stated when [diskUsed] exceeds [diskTotal]: on this line the
    disk check fires with [diskTotal] nonzero and reports -1, which is
    neither [(diskTotal - diskUsed) / 1048576] rounded down (-2) nor that
    quotient for the wrapped [uint64] difference. *)
Lemma disk_alert_truncates_toward_zero :
  usable "1,1,0,1000,2000000,1,0"
  /\ diskTotal (snapshot_of "1,1,0,1000,2000000,1,0") = 1000
  /\ diskUsed (snapshot_of "1,1,0,1000,2000000,1,0") = 2000000
  /\ fgt (diskPct (snapshot_of "1,1,0,1000,2000000,1,0"))
         (float64_of_Z freeDiscSpaceThreshold) = true
  /\ pollOnce (ok "1,1,0,1000,2000000,1,0") []
     = ([FreeDiskSpaceTooLow (-1)], inl tt)
  /\ (1000 - 2000000) / 1048576 = -2
  /\ wrap64 (1000 - 2000000) / 1048576 = 17592186044414.
Proof.
  split; [split; [reflexivity | vm_compute; discriminate]|].
  repeat split.
Qed.

(** C7, as the code has it. A field that is a decimal numeral is accepted
    with its exact value, and leaves [errNum] as it is, when the value is at
    most 2^64 - 1; a numeral of a larger value is refused with a range error
    and counted. *)
Theorem numeral_accepted_up_to_maxUint64 s :
  numeral s = true ->
  (value s <= maxUint64 ->
     strconv.ParseUint s = (value s, None)
     /\ failed s = false
     /\ forall n, count_err (snd (strconv.ParseUint s)) n = n)
  /\ (maxUint64 < value s ->
     strconv.ParseUint s = (maxUint64, Some strconv.ErrRange)
     /\ failed s = true
     /\ forall n, count_err (snd (strconv.ParseUint s)) n = n + 1).
Proof.
  intros Hs. pose proof (ParseUint_numeral s Hs) as H. unfold failed.
  split; intros Hv.
  - destruct (value s <=? maxUint64) eqn:E; [|apply Z.leb_gt in E; lia].
    rewrite H. repeat split.
  - destruct (value s <=? maxUint64) eqn:E; [apply Z.leb_le in E; lia|].
    rewrite H. repeat split.
Qed.

Lemma numeral_accepted_up_to_maxUint64_witness :
  strconv.ParseUint "18446744073709551615" = (18446744073709551615, None)
  /\ strconv.ParseUint "0018446744073709551616"
     = (maxUint64, Some strconv.ErrRange).
Proof.
  split.
  - apply (numeral_accepted_up_to_maxUint64 "18446744073709551615");
      [reflexivity | vm_compute; discriminate].
  - apply (numeral_accepted_up_to_maxUint64 "0018446744073709551616");
      [reflexivity | vm_compute; reflexivity].
Defined.

(** C7 fails as stated: 2^64 is a decimal numeral of a non-negative integer,
    and as a field it fails interpretation and is counted in [errNum]. *)
Lemma numeral_above_maxUint64_is_refused :
  numeral "18446744073709551616" = true
  /\ value "18446744073709551616" = 2 ^ 64
  /\ strconv.ParseUint "18446744073709551616"
     = (18446744073709551615, Some strconv.ErrRange)
  /\ errNum (snapshot_of "18446744073709551616,1,0,1,0,1,0") = 1.
Proof. repeat split. Qed.

(** C8. The lines the four checks print and the outcome of the cycle are a
    function of the seven values of the snapshot alone: they do not depend on
    what was printed before, nor on [errNum], so a second evaluation of the
    same snapshot appends the same lines, in the same order, and ends the
    same way. *)
Theorem evaluation_is_deterministic s :
  exists lines r,
    (forall out, checks s out = (out ++ lines, r))
    /\ (forall out,
          checks s (fst (checks s out)) = (out ++ lines ++ lines, r))
    /\ (forall s',
          (forall i, (i < 7)%nat -> field i s' = field i s) ->
          forall out, checks s' out = (out ++ lines, r)).
Proof.
  exists (fst (checks s [])), (snd (checks s [])).
  assert (Hf : forall out,
             checks s out = (out ++ fst (checks s []), snd (checks s [])))
    by (intros out; apply checks_frame).
  split; [exact Hf|]. split.
  - intros out. rewrite (Hf out). simpl. rewrite Hf.
    now rewrite <- app_assoc.
  - intros s' Hs out. rewrite <- Hf.
    pose proof (Hs 0%nat ltac:(lia)) as H0.
    pose proof (Hs 1%nat ltac:(lia)) as H1.
    pose proof (Hs 2%nat ltac:(lia)) as H2.
    pose proof (Hs 3%nat ltac:(lia)) as H3.
    pose proof (Hs 4%nat ltac:(lia)) as H4.
    pose proof (Hs 5%nat ltac:(lia)) as H5.
    pose proof (Hs 6%nat ltac:(lia)) as H6.
    simpl in H0, H1, H2, H3, H4, H5, H6.
    rewrite !checks_eq.
    unfold loadLine, memLine, diskLine, netLine, memPct, diskPct, netPct,
           freeMB, freeMbit.
    now rewrite H0, H1, H2, H3, H4, H5, H6.
Qed.

(** C9, as the code has it. The subtractions wrap. With
    [diskUsed > diskTotal] the disk check fires, and its line reports the
    [int64] reading of [(diskTotal - diskUsed) mod 2^64], divided by 1048576
    toward zero: for an excess of at most 2^63 that is minus the whole
    megabytes of the excess (never positive, and negative only from an excess
    of 1048576 on); for a larger excess it is a non-negative number.  With
    [netUsed > netCap] the network check fires, and its line reports the
    wrapped difference [2^64 - (netUsed - netCap)], which is at least 2,
    converted to float64, times 8, divided by 1000000: a positive number,
    not zero. *)
Theorem remaining_capacity_wraps body out :
  usable body ->
  let s := snapshot_of body in
  memTotal s <> 0 -> diskTotal s <> 0 ->
  (diskTotal s < diskUsed s ->
   let excess := diskUsed s - diskTotal s in
   let reported :=
     Z.quot (int64_of_uint64 ((diskTotal s - diskUsed s) mod 2 ^ 64)) 1048576 in
   fgt (diskPct s) (float64_of_Z freeDiscSpaceThreshold) = true
   /\ (exists pre post r,
         pollOnce (ok body) out
           = (out ++ pre ++ [FreeDiskSpaceTooLow reported] ++ post, r)
         /\ (forall v, ~ In (FreeDiskSpaceTooLow v) pre)
         /\ (forall v, ~ In (FreeDiskSpaceTooLow v) post))
   /\ (excess <= 2 ^ 63 ->
       reported = - (excess / 1048576) /\ reported <= 0
       /\ (reported < 0 <-> 1048576 <= excess))
   /\ (2 ^ 63 < excess ->
       reported = (2 ^ 64 - excess) / 1048576 /\ 0 <= reported))
  /\ (netCap s <> 0 -> netCap s < netUsed s ->
      let wrapped := 2 ^ 64 - (netUsed s - netCap s) in
      let reported :=
        fdiv (fmul (float64_of_Z wrapped) (float64_of_Z 8))
             (float64_of_Z 1000000) in
      fgt (netPct s) (float64_of_Z networkBandwidthThreshold) = true
      /\ 2 <= wrapped <= maxUint64
      /\ (exists m e, reported = S754_finite false m e)
      /\ exists pre,
           pollOnce (ok body) out
             = (out ++ pre ++ [NetworkBandwidthHigh reported], inl tt)
           /\ (forall p, ~ In (NetworkBandwidthHigh p) pre)).
Proof.
  intros Hu s Hm Hd.
  rewrite (pollOnce_usable body out Hu). fold s.
  pose proof (snapshot_range (parts_of body) 3 ltac:(lia)) as Rdt.
  pose proof (snapshot_range (parts_of body) 4 ltac:(lia)) as Rdu.
  pose proof (snapshot_range (parts_of body) 5 ltac:(lia)) as Rnc.
  pose proof (snapshot_range (parts_of body) 6 ltac:(lia)) as Rnu.
  simpl in Rdt, Rdu, Rnc, Rnu.
  fold (snapshot_of body) in Rdt, Rdu, Rnc, Rnu. fold s in Rdt, Rdu, Rnc, Rnu.
  split.
  - intros Hlt excess reported.
    assert (Hg : fgt (diskPct s) (float64_of_Z freeDiscSpaceThreshold) = true)
      by (apply pct_when_exceeding; lia).
    assert (Hrep : reported = freeMB s) by reflexivity.
    destruct (freeMB_underflow s Rdt Rdu Hlt) as [Hneg Hpos].
    split; [exact Hg|].
    split; [rewrite Hrep; now apply disk_line_printed|].
    subst excess. split; intros He.
    + rewrite Hrep, (Hneg He).
      assert (0 <= (diskUsed s - diskTotal s) / 1048576)
        by (apply Z.div_pos; lia).
      split; [reflexivity|]. split; [lia|].
      split; intros H1.
      * destruct (Z.lt_ge_cases (diskUsed s - diskTotal s) 1048576) as [L|L];
          [|exact L].
        rewrite Z.div_small in H1 by lia. lia.
      * assert (1 <= (diskUsed s - diskTotal s) / 1048576)
          by (apply Z.div_le_lower_bound; lia).
        lia.
    + rewrite Hrep, (Hpos He). split; [reflexivity|].
      apply Z.div_pos; unfold maxUint64 in *; lia.
  - intros Hn Hlt wrapped reported.
    assert (Hg : fgt (netPct s) (float64_of_Z networkBandwidthThreshold) = true)
      by (apply pct_when_exceeding; lia).
    assert (Hwr : wrap64 (netCap s - netUsed s) = wrapped)
      by (apply wrap64_underflow; assumption).
    assert (Hrep : reported = freeMbit s)
      by (unfold freeMbit; now rewrite Hwr).
    split; [exact Hg|].
    split; [subst wrapped; unfold maxUint64 in *; lia|].
    split.
    + rewrite Hrep. apply freeMbit_positive. rewrite Hwr.
      subst wrapped. unfold maxUint64 in *. lia.
    + rewrite Hrep. now apply net_line_printed.
Qed.

Lemma remaining_capacity_wraps_witness :
  (exists pre post r,
     pollOnce (ok "1,1,0,1000,2098152,1000,1001") []
       = ([] ++ pre ++ [FreeDiskSpaceTooLow (-2)] ++ post, r)
     /\ (forall v, ~ In (FreeDiskSpaceTooLow v) pre)
     /\ (forall v, ~ In (FreeDiskSpaceTooLow v) post))
  /\ exists pre,
       pollOnce (ok "1,1,0,1000,2098152,1000,1001") []
         = ([] ++ pre
               ++ [NetworkBandwidthHigh
                     (fdiv (fmul (float64_of_Z 18446744073709551615)
                                 (float64_of_Z 8))
                           (float64_of_Z 1000000))],
            inl tt)
       /\ (forall p, ~ In (NetworkBandwidthHigh p) pre).
Proof.
  assert (Hu : usable "1,1,0,1000,2098152,1000,1001")
    by (split; [reflexivity | vm_compute; discriminate]).
  assert (Hm : memTotal (snapshot_of "1,1,0,1000,2098152,1000,1001") <> 0)
    by (vm_compute; discriminate).
  assert (Hd : diskTotal (snapshot_of "1,1,0,1000,2098152,1000,1001") <> 0)
    by (vm_compute; discriminate).
  destruct (remaining_capacity_wraps _ [] Hu Hm Hd) as [Hdisk Hnet].
  split.
  - apply Hdisk; reflexivity.
  - apply Hnet; [vm_compute; discriminate | reflexivity].
Defined.

(** C9 fails as stated: on this line the disk check fires with
    [diskUsed > diskTotal] and the figure it reports is 0, not a negative
    number; on the second line it reports a positive number. *)
Lemma wrapped_disk_figure_is_not_negative :
  usable "1,1,0,1000,1050,1,0"
  /\ diskTotal (snapshot_of "1,1,0,1000,1050,1,0")
     < diskUsed (snapshot_of "1,1,0,1000,1050,1,0")
  /\ fgt (diskPct (snapshot_of "1,1,0,1000,1050,1,0"))
         (float64_of_Z freeDiscSpaceThreshold) = true
  /\ pollOnce (ok "1,1,0,1000,1050,1,0") []
     = ([FreeDiskSpaceTooLow 0], inl tt)
  /\ pollOnce (ok "1,1,0,2097152,18446744073709551615,1,0") []
     = ([FreeDiskSpaceTooLow 2], inl tt).
Proof.
  split; [split; [reflexivity | vm_compute; discriminate]|].
  repeat split.
Qed.

(** C10. On a usable snapshot with the load above its threshold and
    [memTotal = 0], the load line is printed and the cycle then fails with
    the memory guard error; the line stays printed, and [main] prints its
    notice after it. *)
Theorem load_alert_survives_guard_failure body out :
  usable body ->
  let s := snapshot_of body in
  loadAvg s > loadAverageThreshold -> memTotal s = 0 ->
  pollOnce (ok body) out
    = (out ++ [LoadAverageTooHigh (loadAvg s)], inr ErrMemTotal0)
  /\ tick (ok body) out
     = out ++ [LoadAverageTooHigh (loadAvg s); UnableToFetch].
Proof.
  intros Hu s Hl Hm.
  assert (Hp : pollOnce (ok body) out
               = (out ++ [LoadAverageTooHigh (loadAvg s)], inr ErrMemTotal0)).
  { rewrite (pollOnce_usable body out Hu), checks_eq. fold s. rewrite Hm.
    unfold loadLine. simpl.
    destruct (loadAvg s >? loadAverageThreshold) eqn:E; [reflexivity | lia]. }
  split; [exact Hp|].
  unfold tick. rewrite Hp. now rewrite <- app_assoc.
Qed.

Lemma load_alert_survives_guard_failure_witness :
  pollOnce (ok "45,0,0,1000,100,1000,50") []
    = ([LoadAverageTooHigh 45], inr ErrMemTotal0)
  /\ tick (ok "45,0,0,1000,100,1000,50") []
     = [LoadAverageTooHigh 45; UnableToFetch].
Proof.
  apply (load_alert_survives_guard_failure "45,0,0,1000,100,1000,50" []);
    [split; [reflexivity | vm_compute; discriminate]
    | reflexivity | reflexivity].
Defined.

(** * Further properties of the code *)

(** X1. What [ParseUint] returns for a field is decided by its longest
    prefix of digits: a range error with 2^64 - 1 when the digits alone
    exceed 2^64 - 1, whatever follows them; the value with no error when the
    field is those digits, at least one, and nothing else; a syntax error
    with 0 otherwise. *)
Theorem field_outcome s :
  strconv.ParseUint s =
    if maxUint64 <? value (leadingDigits s)
      then (maxUint64, Some strconv.ErrRange)
    else if String.eqb s EmptyString
              || negb (String.eqb (afterDigits s) EmptyString)
      then (0, Some strconv.ErrSyntax)
    else (value (leadingDigits s), None).
Proof.
  destruct (String.eqb s EmptyString) eqn:Es.
  - apply String.eqb_eq in Es. subst s. reflexivity.
  - assert (Hp : strconv.ParseUint s = strconv.ParseUint_loop s 0)
      by (destruct s; [discriminate | reflexivity]).
    rewrite Hp. rewrite (String_split s) at 1.
    rewrite ParseUint_loop_app
      by (try apply leadingDigits_allDigits; unfold maxUint64; lia).
    fold (value (leadingDigits s)).
    destruct (value (leadingDigits s) <=? maxUint64) eqn:E.
    + apply Z.leb_le in E.
      destruct (maxUint64 <? value (leadingDigits s)) eqn:E'; [lia|].
      simpl orb.
      destruct (afterDigits_head s) as [H|(c & t & H & Hc)]; rewrite H.
      * reflexivity.
      * simpl. now apply ParseUint_loop_not_digit.
    + apply Z.leb_gt in E.
      destruct (maxUint64 <? value (leadingDigits s)) eqn:E'; [reflexivity|lia].
Qed.

(** X2. Alert lines are printed for a response with status 200 and a usable
    snapshot only: a transport failure, another status, a read failure, a
    wrong number of fields or more than 3 unparsable fields end the cycle
    with nothing printed by [pollOnce]. *)
Theorem alerts_need_usable_snapshot r out out' res :
  pollOnce r out = (out', res) -> out' <> out ->
  exists body, r = ok body /\ usable body.
Proof.
  intros Hp Hne. rewrite pollOnce_frame in Hp.
  destruct (pollOnce_cases r) as [(e & He & _)|(body & Hr & Hu & _)].
  - rewrite He in Hp. simpl in Hp. rewrite app_nil_r in Hp.
    injection Hp as Hp _. congruence.
  - now exists body.
Qed.

Lemma alerts_need_usable_snapshot_witness :
  exists body,
    ok "45,1000,900,1000,500,1000,500" = ok body /\ usable body.
Proof.
  apply (alerts_need_usable_snapshot
           (ok "45,1000,900,1000,500,1000,500") []
           [LoadAverageTooHigh 45; MemoryUsageTooHigh (float64_of_Z 90)]
           (inl tt));
    [reflexivity | discriminate].
Defined.

(** X3. A cycle succeeds exactly when the response has status 200, its body
    was read, the line has 7 fields of which at most 3 are unparsable, and
    the three denominators are not zero; it has then printed the lines of
    the four checks, in their order, and nothing else. *)
Theorem pollOnce_succeeds_iff r out out' :
  pollOnce r out = (out', inl tt) <->
  exists body,
    r = ok body /\ usable body
    /\ memTotal (snapshot_of body) <> 0
    /\ diskTotal (snapshot_of body) <> 0
    /\ netCap (snapshot_of body) <> 0
    /\ out' = out ++ loadLine (snapshot_of body) ++ memLine (snapshot_of body)
                  ++ diskLine (snapshot_of body) ++ netLine (snapshot_of body).
Proof.
  split.
  - intros Hp. rewrite pollOnce_frame in Hp.
    destruct (pollOnce_cases r) as [(e & He & _)|(body & Hr & Hu & Hc)].
    + rewrite He in Hp. discriminate.
    + exists body. split; [exact Hr|]. split; [exact Hu|].
      rewrite Hc, checks_eq in Hp.
      set (s := snapshot_of body) in *.
      destruct (memTotal s =? 0) eqn:Em; [discriminate|].
      destruct (diskTotal s =? 0) eqn:Ed; [discriminate|].
      destruct (netCap s =? 0) eqn:En; [discriminate|].
      apply Z.eqb_neq in Em, Ed, En. simpl in Hp.
      injection Hp as Hp. now subst out'.
  - intros (body & -> & Hu & Hm & Hd & Hn & ->).
    rewrite (pollOnce_usable body out Hu), checks_eq.
    apply Z.eqb_neq in Hm, Hd, Hn. now rewrite Hm, Hd, Hn.
Qed.


(** X5. The loop of [main] keeps nothing from one cycle to the next and is
    not stopped by a failed cycle: what it prints is the lines of each tick
    taken alone, one tick after the other, up to the first cancellation;
    the events after the cancellation print nothing. *)
Theorem main_prints_each_tick_alone rs rest out :
  main (map TickerC rs ++ CtxDone :: rest) out
    = out ++ List.concat (map (fun r => tick r []) rs)
  /\ main (map TickerC rs) out
    = out ++ List.concat (map (fun r => tick r []) rs).
Proof.
  revert out. induction rs as [|r rs IH]; intros out; simpl.
  - now rewrite app_nil_r.
  - destruct (IH (tick r out)) as [IH1 IH2].
    rewrite IH1, IH2, (tick_frame r out), <- app_assoc. now split.
Qed.

(** X6. The memory check fires whenever more is used than the total: on a
    usable snapshot with [memUsed > memTotal] and [memTotal] not zero the
    memory line is printed, after the load line if any, with the percentage
    as computed. *)
Theorem memory_above_total_alerts body out :
  usable body ->
  let s := snapshot_of body in
  memTotal s <> 0 -> memTotal s < memUsed s ->
  exists post r,
    pollOnce (ok body) out
      = (out ++ loadLine s ++ [MemoryUsageTooHigh (memPct s)] ++ post, r)
    /\ (forall p, ~ In (MemoryUsageTooHigh p) post).
Proof.
  intros Hu s Hm Hlt.
  pose proof (snapshot_range (parts_of body) 1 ltac:(lia)) as Rt.
  pose proof (snapshot_range (parts_of body) 2 ltac:(lia)) as Ru.
  simpl in Rt, Ru. fold (snapshot_of body) in Rt, Ru. fold s in Rt, Ru.
  assert (Hg : fgt (memPct s) (float64_of_Z memoryUsageThreshold) = true)
    by (apply pct_above_80_when_exceeding; lia).
  rewrite (pollOnce_usable body out Hu), checks_eq. fold s.
  apply Z.eqb_neq in Hm. rewrite Hm.
  assert (Hml : memLine s = [MemoryUsageTooHigh (memPct s)])
    by (unfold memLine; now rewrite Hg).
  rewrite Hml.
  destruct (diskTotal s =? 0);
    [|destruct (netCap s =? 0)]; eexists _, _;
    (split; [rewrite <- ?app_assoc; simpl; reflexivity|]);
    intros p Hin; lines_cases s; simpl in Hin; intuition discriminate.
Qed.

Lemma memory_above_total_alerts_witness :
  exists post r,
    pollOnce (ok "1,1000,1001,1000,1,1000,1") []
      = ([] ++ loadLine (snapshot_of "1,1000,1001,1000,1,1000,1")
            ++ [MemoryUsageTooHigh
                  (memPct (snapshot_of "1,1000,1001,1000,1,1000,1"))] ++ post,
         r)
    /\ (forall p, ~ In (MemoryUsageTooHigh p) post).
Proof.
  apply (memory_above_total_alerts "1,1000,1001,1000,1,1000,1" []);
    [split; [reflexivity | vm_compute; discriminate]
    | vm_compute; discriminate | reflexivity].
Defined.

(** X7. What is at most half used never alerts: on a usable snapshot, a
    percentage check whose [used] is at most half of its [total] prints no
    line; with the load at most 30, the three totals not zero and each at
    most half used, the cycle prints nothing and succeeds. *)
Theorem half_used_never_alerts body out new r :
  usable body ->
  pollOnce (ok body) out = (out ++ new, r) ->
  let s := snapshot_of body in
  (2 * memUsed s <= memTotal s -> forall p, ~ In (MemoryUsageTooHigh p) new)
  /\ (2 * diskUsed s <= diskTotal s ->
      forall v, ~ In (FreeDiskSpaceTooLow v) new)
  /\ (2 * netUsed s <= netCap s ->
      forall p, ~ In (NetworkBandwidthHigh p) new)
  /\ (loadAvg s <= loadAverageThreshold ->
      memTotal s <> 0 -> diskTotal s <> 0 -> netCap s <> 0 ->
      2 * memUsed s <= memTotal s -> 2 * diskUsed s <= diskTotal s ->
      2 * netUsed s <= netCap s ->
      new = [] /\ r = inl tt).
Proof.
  intros Hu Hp s.
  pose proof (snapshot_range (parts_of body) 1 ltac:(lia)) as R1.
  pose proof (snapshot_range (parts_of body) 2 ltac:(lia)) as R2.
  pose proof (snapshot_range (parts_of body) 3 ltac:(lia)) as R3.
  pose proof (snapshot_range (parts_of body) 4 ltac:(lia)) as R4.
  pose proof (snapshot_range (parts_of body) 5 ltac:(lia)) as R5.
  pose proof (snapshot_range (parts_of body) 6 ltac:(lia)) as R6.
  simpl in R1, R2, R3, R4, R5, R6.
  fold (snapshot_of body) in R1, R2, R3, R4, R5, R6.
  fold s in R1, R2, R3, R4, R5, R6.
  rewrite (pollOnce_usable body out Hu) in Hp. fold s in Hp.
  pose proof (printed_only_if s out new r Hp) as (_ & Pm & Pd & Pn).
  assert (Hm : memTotal s <> 0 -> 2 * memUsed s <= memTotal s ->
               fgt (memPct s) (float64_of_Z memoryUsageThreshold) = false)
    by (intros; apply pct_when_half_used; lia).
  assert (Hd : diskTotal s <> 0 -> 2 * diskUsed s <= diskTotal s ->
               fgt (diskPct s) (float64_of_Z freeDiscSpaceThreshold) = false)
    by (intros; apply pct_when_half_used; lia).
  assert (Hn : netCap s <> 0 -> 2 * netUsed s <= netCap s ->
               fgt (netPct s) (float64_of_Z networkBandwidthThreshold) = false)
    by (intros; apply pct_when_half_used; lia).
  split; [|split; [|split]].
  - intros Hh p Hin. apply Pm in Hin as (Hz & Hg & _).
    rewrite (Hm Hz Hh) in Hg. discriminate.
  - intros Hh v Hin. apply Pd in Hin as (_ & Hz & Hg & _).
    rewrite (Hd Hz Hh) in Hg. discriminate.
  - intros Hh p Hin. apply Pn in Hin as (_ & _ & Hz & Hg & _).
    rewrite (Hn Hz Hh) in Hg. discriminate.
  - intros Hl Zm Zd Zn Hhm Hhd Hhn.
    rewrite checks_eq in Hp.
    unfold loadLine, memLine, diskLine, netLine in Hp.
    rewrite (Hm Zm Hhm), (Hd Zd Hhd), (Hn Zn Hhn) in Hp.
    apply Z.eqb_neq in Zm, Zd, Zn. rewrite Zm, Zd, Zn in Hp.
    destruct (loadAvg s >? loadAverageThreshold) eqn:E; [lia|].
    simpl in Hp. injection Hp as Hp Hr.
    apply app_inv_head in Hp. now split.
Qed.

Lemma half_used_never_alerts_witness :
  let s := snapshot_of "31,1000,500,1000,950,1000,50" in
  let new := [LoadAverageTooHigh 31; FreeDiskSpaceTooLow 0] in
  (2 * memUsed s <= memTotal s -> forall p, ~ In (MemoryUsageTooHigh p) new)
  /\ (2 * diskUsed s <= diskTotal s ->
      forall v, ~ In (FreeDiskSpaceTooLow v) new)
  /\ (2 * netUsed s <= netCap s ->
      forall p, ~ In (NetworkBandwidthHigh p) new)
  /\ (loadAvg s <= loadAverageThreshold ->
      memTotal s <> 0 -> diskTotal s <> 0 -> netCap s <> 0 ->
      2 * memUsed s <= memTotal s -> 2 * diskUsed s <= diskTotal s ->
      2 * netUsed s <= netCap s ->
      new = [] /\ inl tt = @inl unit error tt).
Proof.
  apply (half_used_never_alerts "31,1000,500,1000,950,1000,50" []
           [LoadAverageTooHigh 31; FreeDiskSpaceTooLow 0] (inl tt));
    [split; [reflexivity | vm_compute; discriminate] | reflexivity].
Defined.

(** X8. The figures printed as floating-point numbers are never negative,
    infinite or not a number: on a usable snapshot the percentage of a
    memory line is a positive finite number, and the figure of a network
    line is zero or a positive finite number. *)
Theorem printed_floats_are_finite body out new r :
  usable body ->
  pollOnce (ok body) out = (out ++ new, r) ->
  (forall p, In (MemoryUsageTooHigh p) new ->
     exists m e, p = S754_finite false m e)
  /\ (forall p, In (NetworkBandwidthHigh p) new ->
     p = S754_zero false \/ exists m e, p = S754_finite false m e).
Proof.
  intros Hu Hp.
  set (s := snapshot_of body).
  pose proof (snapshot_range (parts_of body) 1 ltac:(lia)) as R1.
  pose proof (snapshot_range (parts_of body) 2 ltac:(lia)) as R2.
  simpl in R1, R2. fold (snapshot_of body) in R1, R2. fold s in R1, R2.
  rewrite (pollOnce_usable body out Hu) in Hp. fold s in Hp.
  pose proof (printed_only_if s out new r Hp) as (_ & Pm & _ & Pn).
  split.
  - intros p Hin. apply Pm in Hin as (Hz & Hg & ->).
    destruct (pct_shape (memUsed s) (memTotal s) ltac:(lia) ltac:(lia))
      as [Z0|Hf]; [|exact Hf].
    unfold memPct in Hg. rewrite Z0 in Hg. discriminate.
  - intros p Hin. apply Pn in Hin as (_ & _ & _ & _ & ->).
    apply freeMbit_shape.
Qed.

Lemma printed_floats_are_finite_witness :
  (forall p,
     In (MemoryUsageTooHigh p)
        [LoadAverageTooHigh 45; MemoryUsageTooHigh (float64_of_Z 90)] ->
     exists m e, p = S754_finite false m e)
  /\ (forall p,
     In (NetworkBandwidthHigh p)
        [LoadAverageTooHigh 45; MemoryUsageTooHigh (float64_of_Z 90)] ->
     p = S754_zero false \/ exists m e, p = S754_finite false m e).
Proof.
  apply (printed_floats_are_finite "45,1000,900,1000,500,1000,500" []
           [LoadAverageTooHigh 45; MemoryUsageTooHigh (float64_of_Z 90)]
           (inl tt));
    [split; [reflexivity | vm_compute; discriminate] | reflexivity].
Defined.

(** X9. A line of seven decimal numerals of at most 2^64 - 1, separated by
    commas, is read back exactly, whatever ASCII white space stands around
    the line, the numerals and the commas: the parts are the numerals, every
    value of the snapshot is the value of its numeral, no field is counted
    as unparsable, and the cycle goes on to the four checks. *)
Theorem line_of_numerals_is_read_back lead f0 rest trail out :
  allSpace lead = true -> allSpace trail = true ->
  accepted f0 -> Forall goodRest rest -> List.length rest = 6%nat ->
  let body := lineOf lead f0 rest trail in
  parts_of body = f0 :: map fieldOf rest
  /\ (forall i, (i < 7)%nat ->
      field i (snapshot_of body)
      = value (nth i (f0 :: map fieldOf rest) EmptyString))
  /\ errNum (snapshot_of body) = 0
  /\ pollOnce (ok body) out = checks (snapshot_of body) out.
Proof.
  intros Hl Ht Hf Hrest Hlen body.
  assert (Hparts : parts_of body = f0 :: map fieldOf rest)
    by (apply lineOf_parts; try assumption; apply Hf).
  assert (Hall : Forall accepted (f0 :: map fieldOf rest)).
  { constructor; [exact Hf|]. clear - Hrest.
    induction Hrest as [|[[a b] f] rest Hg _ IH]; simpl; [constructor|].
    constructor; [apply Hg | exact IH]. }
  assert (Hw : wellFormed body)
    by (unfold wellFormed; rewrite Hparts; simpl; rewrite length_map; lia).
  assert (He : errNum (snapshot_of body) = 0).
  { unfold snapshot_of. rewrite parseFields_errNum by exact Hw.
    now rewrite Hparts, (accepted_not_failed _ Hall). }
  split; [exact Hparts|]. split; [|split; [exact He|]].
  - intros i Hi. unfold snapshot_of.
    rewrite parseFields_field by exact Hi. unfold part. rewrite Hparts.
    assert (Hacc : accepted (nth i (f0 :: map fieldOf rest) EmptyString)).
    { rewrite Forall_forall in Hall. apply Hall, nth_In.
      simpl. rewrite length_map. lia. }
    now rewrite (accepted_parse _ Hacc).
  - apply pollOnce_usable. split; [exact Hw | lia].
Qed.

Lemma line_of_numerals_is_read_back_witness :
  parts_of "  10 ,007 ,	1000,3 , 4,5,18446744073709551615
"
  = ["10"; "007"; "1000"; "3"; "4"; "5"; "18446744073709551615"].
Proof.
  apply (line_of_numerals_is_read_back "  " "10"
           [(" ", "", "007"); (" ", "	", "1000"); ("", "", "3");
            (" ", " ", "4"); ("", "", "5"); ("", "", "18446744073709551615")]
           "
" []);
    try reflexivity.
  - split; [reflexivity | vm_compute; discriminate].
  - repeat constructor; vm_compute; discriminate.
Defined.

(** X10.  The number of fields the cycle counts is one more than the number
    of commas in the body as received: surrounding white space, ASCII or
    Unicode, is cut without touching a comma, and splitting keeps empty
    parts. *)
Theorem field_count_is_commas_plus_one body :
  List.length (parts_of body) = S (strings.Count body ",").
Proof. unfold parts_of. now rewrite splitCSV_length, TrimSpace_Count. Qed.

(** X11.  No field that [splitCSV] returns holds a comma: every comma of the
    line is used up as a separator, and trimming a segment brings none
    back. *)
Theorem fields_hold_no_comma s :
  Forall (fun p => strings.Count p "," = O) (splitCSV s).
Proof.
  rewrite splitCSV_map. apply Forall_map.
  eapply Forall_impl; [|apply (genSplit_no_sep "," _ s eq_refl)].
  intros p Hp. cbn beta in *. now rewrite TrimSpace_Count.
Qed.
